(** * The sus test-host session engine (src/runner.ts)

    A shallow embedding of the [Runner] class: the decoded event records it
    receives from the host process, the way it resolves diagnostic messages
    and coverage, its Pending Test Set, and the run epilogue.

    The file has three parts: the fragment of JavaScript the class relies on
    (values, truthiness, property reads, string conversion, exceptions), the
    class itself, method by method, and the properties of a session.
    [Runner.open], which spawns the host and ties cancellation to
    [child.kill()], and [dispose] are left out: the host process is seen
    through the events it emits and the code it exits with. *)

From Stdlib Require Import Ascii.
From stdpp Require Import gmap strings list pretty sorting.

Local Open Scope Z_scope.

(** ** JavaScript values

    [data: any] in the source is whatever [JSON.parse] produced for one line,
    so the events are modelled as JSON values, together with [undefined]
    (the result of reading a missing property) and [NaN] (the result of
    arithmetic on a non-number).  Numbers are taken in their integer
    fragment (line numbers, columns, hit counts, exit codes); strings are
    taken over the ASCII range, where a character is one code unit. *)
Module JS.

Inductive number :=
  | Int (z : Z)
  | NaN.

#[warnings="-register-all"]
Inductive value :=
  | Undefined
  | Null
  | VBool (b : bool)
  | VNum (n : number)
  | VStr (s : string)
  | VArr (elems : list value)
  | VObj (props : list (string * value)).

Inductive exn :=
  | TypeError (msg : string)
  | Error (msg : string).

(** How the evaluation of an expression or statement ends: with a value,
    with a thrown exception, or never ([await] on a promise that is never
    settled). *)
Inductive completion (A : Type) :=
  | Normal (a : A)
  | Throw (e : exn)
  | Suspended.
Arguments Normal {A} a.
Arguments Throw {A} e.
Arguments Suspended {A}.

#[global] Instance completion_ret : MRet completion := @Normal.
#[global] Instance completion_bind : MBind completion := λ A B f c,
  match c with
  | Normal a => f a
  | Throw e => Throw e
  | Suspended => Suspended
  end.

(** [if (v)], [v || w], [v && w]: everything is truthy except [undefined],
    [null], [false], [0], [NaN] and the empty string. *)
Definition truthy (v : value) : bool :=
  match v with
  | Undefined | Null => false
  | VBool b => b
  | VNum (Int z) => negb (z =? 0)
  | VNum NaN => false
  | VStr s => negb (String.eqb s "")
  | VArr _ | VObj _ => true
  end.

(** [v || w] *)
Definition or_else (v w : value) : value := if truthy v then v else w.

(** [v != null]: only [null] and [undefined] are loosely equal to [null]. *)
Definition not_nullish (v : value) : bool :=
  match v with
  | Undefined | Null => false
  | _ => true
  end.

(** The own properties of a decoded object, first binding first. *)
Fixpoint own (name : string) (props : list (string * value)) : option value :=
  match props with
  | [] => None
  | (k, v) :: props' => if String.eqb name k then Some v else own name props'
  end.

(** [v.name] for the property names the class reads ([started], [inform],
    [passed], [failed], [errored], [finished], [coverage], [message],
    [messages], [duration], [text], [actual], [expected], [location],
    [path], [line], [column], [counts], [length]): none of them is
    inherited from a prototype, except [length] on arrays and strings.
    Reading a property of [undefined] or [null] throws. *)
Definition get (v : value) (name : string) : completion value :=
  match v with
  | Undefined =>
      Throw (TypeError ("Cannot read properties of undefined (reading '" +:+ name +:+ "')"))
  | Null =>
      Throw (TypeError ("Cannot read properties of null (reading '" +:+ name +:+ "')"))
  | VObj props => Normal (default Undefined (own name props))
  | VArr elems =>
      Normal (if String.eqb name "length"
              then VNum (Int (Z.of_nat (length elems))) else Undefined)
  | VStr s =>
      Normal (if String.eqb name "length"
              then VNum (Int (Z.of_nat (String.length s))) else Undefined)
  | VBool _ | VNum _ => Normal Undefined
  end.

(** [v[i]] for an array index [i]. *)
Definition get_index (v : value) (i : nat) : completion value :=
  match v with
  | Undefined =>
      Throw (TypeError ("Cannot read properties of undefined (reading '" +:+ pretty i +:+ "')"))
  | Null =>
      Throw (TypeError ("Cannot read properties of null (reading '" +:+ pretty i +:+ "')"))
  | VArr elems => Normal (default Undefined (elems !! i))
  | VStr s =>
      Normal (match String.get i s with
              | Some c => VStr (String c "")
              | None => Undefined
              end)
  | VObj props => Normal (default Undefined (own (pretty i) props))
  | VBool _ | VNum _ => Normal Undefined
  end.

Definition Number_toString (n : number) : string :=
  match n with
  | Int z => pretty z
  | NaN => "NaN"
  end.

(** [String(v)], as applied to property keys and template substitutions.
    An array is joined with commas, [null] and [undefined] elements giving
    the empty string.  A decoded object prints as [[object Object]] unless
    it has an own [toString] property, which cannot be a function, so that
    the conversion fails. *)
Fixpoint ToString (v : value) : completion string :=
  match v with
  | Undefined => Normal "undefined"
  | Null => Normal "null"
  | VBool b => Normal (if b then "true" else "false")
  | VNum n => Normal (Number_toString n)
  | VStr s => Normal s
  | VArr elems =>
      let element (e : value) : completion string :=
        match e with
        | Undefined | Null => Normal ""
        | _ => ToString e
        end in
      (fix join (l : list value) : completion string :=
         match l with
         | [] => Normal ""
         | e :: l' =>
             s ← element e;
             match l' with
             | [] => Normal s
             | _ => r ← join l'; Normal (s +:+ "," +:+ r)
             end
         end) elems
  | VObj props =>
      match own "toString" props with
      | Some _ => Throw (TypeError "Cannot convert object to primitive value")
      | None => Normal "[object Object]"
      end
  end.

(** [v.toString()]: the method call, which also fails on [undefined] and
    [null]. *)
Definition toString (v : value) : completion string :=
  match v with
  | Undefined =>
      Throw (TypeError "Cannot read properties of undefined (reading 'toString')")
  | Null =>
      Throw (TypeError "Cannot read properties of null (reading 'toString')")
  | VObj props =>
      match own "toString" props with
      | Some _ => Throw (TypeError "toString is not a function")
      | None => Normal "[object Object]"
      end
  | _ => ToString v
  end.

Fixpoint digits (acc : N) (s : string) : option N :=
  match s with
  | "" => Some acc
  | String c s' =>
      match Ascii.is_nat c with
      | Some d => digits (10 * acc + N.of_nat d)%N s'
      | None => None
      end
  end.

Fixpoint trim_start (s : string) : string :=
  match s with
  | String c s' => if Ascii.is_space c then trim_start s' else s
  | "" => ""
  end.

Definition trim (s : string) : string :=
  String.rev (trim_start (String.rev (trim_start s))).

(** The number a string denotes, for the integer literals: optional
    surrounding white space, an optional sign, decimal digits; the empty
    string is [0], anything else is [NaN]. *)
Definition StringToNumber (s : string) : number :=
  let unsigned (ds : string) (sign : Z) : number :=
    match ds with
    | "" => NaN
    | _ => from_option (λ n, Int (sign * Z.of_N n)) NaN (digits 0 ds)
    end in
  match trim s with
  | "" => Int 0
  | String "-"%char ds => unsigned ds (-1)
  | String "+"%char ds => unsigned ds 1
  | ds => unsigned ds 1
  end.

(** [Number(v)], as applied to the operands of [-] and [<]. *)
Definition ToNumber (v : value) : completion number :=
  match v with
  | Undefined => Normal NaN
  | Null => Normal (Int 0)
  | VBool b => Normal (Int (if b then 1 else 0))
  | VNum n => Normal n
  | VStr s => Normal (StringToNumber s)
  | VArr _ | VObj _ => s ← ToString v; Normal (StringToNumber s)
  end.

(** [v - 1] *)
Definition minus_one (v : value) : completion number :=
  n ← ToNumber v;
  Normal (match n with Int z => Int (z - 1) | NaN => NaN end).

Definition LF : ascii := "010"%char.
Definition CR : ascii := "013"%char.

Definition starts_with_LF (s : string) : bool :=
  match s with
  | String c _ => Ascii.eqb c LF
  | "" => false
  end.

(** [text.split(/\r?\n/)] on a string: every line feed, together with the
    carriage return just before it if there is one, separates two pieces. *)
Fixpoint split_lines (s : string) : list string :=
  match s with
  | "" => [""]
  | String c s' =>
      if Ascii.eqb c LF then "" :: split_lines s'
      else if Ascii.eqb c CR && starts_with_LF s' then split_lines s'
      else match split_lines s' with
           | piece :: pieces => String c piece :: pieces
           | [] => [String c ""]
           end
  end.

(** [lines.join(sep)] on an array of strings. *)
Fixpoint join (sep : string) (lines : list string) : string :=
  match lines with
  | [] => ""
  | [line] => line
  | line :: lines' => line +:+ sep +:+ join sep lines'
  end.

End JS.
Import JS.

(** ** The editor's reporting surface

    The classes of the [vscode] module are outside the repository: an
    object built by one of their constructors is recorded as the arguments
    the runner passes, in call order, and the [TestRun] is recorded as the
    sequence of calls it receives. *)
Module vscode.

(** A test handle is an object reference. *)
Inductive TestItem :=
  | TestItemRef (address : N).

#[global] Instance TestItem_eq_dec : EqDecision TestItem.
Proof. solve_decision. Defined.

(** [vscode.Uri.file(path)] *)
Record Uri := Uri_file { path : value }.

(** [new vscode.Position(line, character)] *)
Record Position := new_Position { line : number; character : value }.

(** [new vscode.Location(uri, position)] *)
Record Location := new_Location { uri : Uri; range : Position }.

(** [new vscode.TestMessage(message)] and
    [vscode.TestMessage.diff(message, second, third)], with the [location]
    field the runner assigns afterwards. *)
Record TestMessage := {
  message : value;
  diff_arguments : option (value * value);
  location : option Location;
}.

Definition new_TestMessage (body : value) : TestMessage :=
  {| message := body; diff_arguments := None; location := None |}.

Definition TestMessage_diff (body second third : value) : TestMessage :=
  {| message := body; diff_arguments := Some (second, third); location := None |}.

Definition set_location (m : TestMessage) (l : option Location) : TestMessage :=
  {| message := message m; diff_arguments := diff_arguments m; location := l |}.

(** [new vscode.StatementCoverage(executed, location)] *)
Record StatementCoverage := new_StatementCoverage {
  executed : value;
  statement_location : Position;
}.

(** The calls of the [TestRun] interface; a handle argument is [None] when
    the runner passes [undefined]. *)
Inductive TestRunCall (FileCoverage : Type) :=
  | started (test : option TestItem)
  | passed (test : option TestItem) (duration : value)
  | failed (test : option TestItem) (messages : list TestMessage) (duration : value)
  | errored (test : option TestItem) (messages : list TestMessage) (duration : value)
  | skipped (test : option TestItem)
  | appendOutput (output : string) (location : option Location) (test : option TestItem)
  | addCoverage (fileCoverage : FileCoverage)
  | end_.
Arguments started {_} test.
Arguments passed {_} test duration.
Arguments failed {_} test messages duration.
Arguments errored {_} test messages duration.
Arguments skipped {_} test.
Arguments appendOutput {_} output location test.
Arguments addCoverage {_} fileCoverage.
Arguments end_ {_}.

End vscode.
Import vscode.

(** ** The runner *)

(** [class FileCoverage extends vscode.FileCoverage]: the summary fields of
    the superclass are computed by the editor from [details]. *)
Record FileCoverage := new_FileCoverage {
  coverage_uri : Uri;
  details : list StatementCoverage;
}.

(** [interface Tests {[key: string]: vscode.TestItem}], as the finite map of
    its own properties.  The order in which [for ... in] and [Object.keys]
    enumerate the keys is not modelled: [map_to_list] gives them in some
    order. *)
Abbreviation Tests := (gmap string TestItem).

(** The [finished] promise. *)
Inductive promise :=
  | Pending
  | Fulfilled
  | Rejected (reason : exn).

(** What is written to the input stream of the host process. *)
Inductive stdin_op :=
  | stdin_write_run (identities : list string)
  | stdin_end.

Inductive console_arg :=
  | LogText (s : string)
  | LogCode (code : option Z)
  | LogError (error : exn).

(** The fields of a [Runner], with the reporting surface, the input stream
    of the child and the console each recorded as what it received so far,
    oldest first. *)
Record Runner := {
  testRun : list (TestRunCall FileCoverage);
  workspaceFolder_name : string;
  tests : Tests;
  child_stdin : list stdin_op;
  finished : promise;
  console : list (list console_arg);
}.

(** A method body: it reads and updates the runner, and completes. *)
Definition M (A : Type) : Type := Runner → Runner * completion A.

#[global] Instance M_ret : MRet M := λ A a r, (r, Normal a).
#[global] Instance M_bind : MBind M := λ A B f m r,
  match m r with
  | (r', Normal a) => f a r'
  | (r', Throw e) => (r', Throw e)
  | (r', Suspended) => (r', Suspended)
  end.

(** A computation on values, run inside a method. *)
Definition lift {A} (c : completion A) : M A := λ r, (r, c).

Definition throw {A} (e : exn) : M A := lift (Throw e).

Definition call (c : TestRunCall FileCoverage) : M unit := λ r,
  ({| testRun := testRun r ++ [c];
      workspaceFolder_name := workspaceFolder_name r;
      tests := tests r;
      child_stdin := child_stdin r;
      finished := finished r;
      console := console r |}, Normal ()).

Definition get_tests : M Tests := λ r, (r, Normal (tests r)).

Definition set_tests (t : Tests) : M unit := λ r,
  ({| testRun := testRun r;
      workspaceFolder_name := workspaceFolder_name r;
      tests := t;
      child_stdin := child_stdin r;
      finished := finished r;
      console := console r |}, Normal ()).

Definition to_stdin (op : stdin_op) : M unit := λ r,
  ({| testRun := testRun r;
      workspaceFolder_name := workspaceFolder_name r;
      tests := tests r;
      child_stdin := child_stdin r ++ [op];
      finished := finished r;
      console := console r |}, Normal ()).

Definition console_log (args : list console_arg) : M unit := λ r,
  ({| testRun := testRun r;
      workspaceFolder_name := workspaceFolder_name r;
      tests := tests r;
      child_stdin := child_stdin r;
      finished := finished r;
      console := console r ++ [args] |}, Normal ()).

(** [resolve()] and [reject(reason)] of the [finished] promise: a promise
    is settled once, later calls have no effect. *)
Definition settle (p : promise) : M unit := λ r,
  ({| testRun := testRun r;
      workspaceFolder_name := workspaceFolder_name r;
      tests := tests r;
      child_stdin := child_stdin r;
      finished := match finished r with Pending => p | settled => settled end;
      console := console r |}, Normal ()).

(** [await this.finished] *)
Definition await_finished : M unit := λ r,
  match finished r with
  | Pending => (r, Suspended)
  | Fulfilled => (r, Normal ())
  | Rejected reason => (r, Throw reason)
  end.

(** [try { body } catch (error) { handler }] *)
Definition try_catch {A} (body : M A) (handler : exn → M A) : M A := λ r,
  match body r with
  | (r', Throw error) => handler error r'
  | other => other
  end.

(** [try { body } finally { finalizer }]: the finalizer runs however the
    body completes, and its own abrupt completion wins. *)
Definition try_finally {A} (body : M A) (finalizer : M unit) : M A := λ r,
  match body r with
  | (r', Suspended) => (r', Suspended)
  | (r', c) =>
      match finalizer r' with
      | (r'', Normal _) => (r'', c)
      | (r'', Throw e) => (r'', Throw e)
      | (r'', Suspended) => (r'', Suspended)
      end
  end.

(** [for (const x of xs) body(x)], and the callback loops [forEach] and
    [map] of arrays. *)
Fixpoint for_each {A} (xs : list A) (body : A → M unit) : M unit :=
  match xs with
  | [] => mret ()
  | x :: xs' => body x;; for_each xs' body
  end.

Fixpoint map_completion {A B} (f : A → completion B) (xs : list A) : completion (list B) :=
  match xs with
  | [] => Normal []
  | x :: xs' => y ← f x; ys ← map_completion f xs'; Normal (y :: ys)
  end.

(** ** The methods of [Runner] *)

Definition CRLF : string := String CR (String LF "").

(** The constructor, after the listeners are registered: the promise is
    pending and the run request has been written to the child. *)
Definition new_Runner (testRun : list (TestRunCall FileCoverage))
    (workspaceFolder_name : string) (tests : Tests) : Runner :=
  {| testRun := testRun;
     workspaceFolder_name := workspaceFolder_name;
     tests := tests;
     child_stdin := [stdin_write_run (map_to_list tests).*1];
     finished := Pending;
     console := [] |}.

Definition Runner_appendOutput (text : value) : M unit :=
  match text with
  | VStr s =>
      let lines := split_lines s in
      call (appendOutput (join CRLF lines) None None)
  | Undefined =>
      throw (TypeError "Cannot read properties of undefined (reading 'split')")
  | Null =>
      throw (TypeError "Cannot read properties of null (reading 'split')")
  | _ => throw (TypeError "text.split is not a function")
  end.

Definition messageBodyFor (data : value) : completion value :=
  text ← get data "text";
  if truthy text then get data "text" else Normal Undefined.

Definition locationFor (data : value) : completion (option Location) :=
  location ← get data "location";
  if truthy location then
    path ← get location "path";
    line ← get location "line";
    line ← minus_one line;
    column ← get location "column";
    Normal (Some (new_Location (Uri_file path)
                               (new_Position line (or_else column (VNum (Int 0))))))
  else Normal None.

Definition messageFor (data : value) : completion TestMessage :=
  body ← messageBodyFor data;
  actual ← get data "actual";
  expected ← get data "expected";
  let message :=
    if truthy actual && truthy expected
    then TestMessage_diff body actual expected
    else new_TestMessage body in
  location ← locationFor data;
  Normal (set_location message location).

(** [data.messages.map(this.messageFor.bind(this))]: only an array has a
    [map] method. *)
Definition messagesFor (data : value) : completion (list TestMessage) :=
  message ← get data "message";
  if truthy message then
    m ← messageFor message; Normal [m]
  else
    messages ← get data "messages";
    if truthy messages then
      match messages with
      | VArr entries => map_completion messageFor entries
      | _ => Throw (TypeError "data.messages.map is not a function")
      end
    else Normal [].

(** [this.tests[identity]]: the key is the identity converted to a string. *)
Definition lookup_test (identity : value) : M (option TestItem) :=
  key ← lift (ToString identity);
  tests ← get_tests;
  mret (tests !! key).

Definition popTest (identity : value) : M (option TestItem) :=
  test ← lookup_test identity;
  key ← lift (ToString identity);
  tests ← get_tests;
  set_tests (delete key tests);;
  mret test.

Definition skipRemainingTests : M unit :=
  tests ← get_tests;
  for_each (map_to_list tests).*1 (λ identity,
    test ← lookup_test (VStr identity);
    call (skipped test)).

(** The loop of [addCoverage] over [lineNumber = 0, 1, ...] below the
    length of [counts]. *)
Fixpoint statementCoverage_loop (counts : value) (lineNumbers : list nat)
    (statementCoverage : list StatementCoverage) : completion (list StatementCoverage) :=
  match lineNumbers with
  | [] => Normal statementCoverage
  | lineNumber :: rest =>
      count ← get_index counts lineNumber;
      statementCoverage_loop counts rest
        (if not_nullish count
         then statementCoverage ++
              [new_StatementCoverage count
                 (new_Position (Int (Z.of_nat lineNumber - 1)) (VNum (Int 0)))]
         else statementCoverage)
  end.

Definition Runner_addCoverage (data : value) : M unit :=
  coverage ← lift (get data "coverage");
  let uri := Uri_file coverage in
  counts ← lift (get data "counts");
  length ← lift (get counts "length");
  length ← lift (ToNumber length);
  let bound := match length with Int n => Z.to_nat n | NaN => 0%nat end in
  statementCoverage ← lift (statementCoverage_loop counts (seq 0 bound) []);
  call (addCoverage (new_FileCoverage uri statementCoverage)).

Definition inform (data : value) : M unit :=
  identity ← lift (get data "inform");
  test ← lookup_test identity;
  messages ← lift (messagesFor data);
  for_each messages (λ message,
    text ← lift (toString (vscode.message message));
    call (appendOutput text (location message) test)).

Definition onData (data : value) : M unit :=
  started_tag ← lift (get data "started");
  if truthy started_tag then
    test ← lookup_test started_tag;
    call (started test)
  else
  inform_tag ← lift (get data "inform");
  if truthy inform_tag then
    inform data
  else
  passed_tag ← lift (get data "passed");
  if truthy passed_tag then
    test ← popTest passed_tag;
    duration ← lift (get data "duration");
    call (passed test duration)
  else
  failed_tag ← lift (get data "failed");
  if truthy failed_tag then
    test ← popTest failed_tag;
    messages ← lift (messagesFor data);
    duration ← lift (get data "duration");
    call (failed test messages duration)
  else
  errored_tag ← lift (get data "errored");
  if truthy errored_tag then
    test ← popTest errored_tag;
    messages ← lift (messagesFor data);
    duration ← lift (get data "duration");
    call (errored test messages duration)
  else
  finished_tag ← lift (get data "finished");
  if truthy finished_tag then
    message ← lift (get data "message");
    Runner_appendOutput message;;
    to_stdin stdin_end
  else
  coverage_tag ← lift (get data "coverage");
  if truthy coverage_tag then
    Runner_addCoverage data
  else mret ().

(** [`${code}`] for the exit code, which is [null] when the process was
    ended by a signal. *)
Definition code_text (code : option Z) : string :=
  match code with
  | Some n => pretty n
  | None => "null"
  end.

(** The listener of the child's [exit] event, which settles [finished];
    [code == 0] is false for [null]. *)
Definition on_exit (code : option Z) : M unit :=
  console_log [LogText "Test host exited with code"; LogCode code];;
  Runner_appendOutput (VStr ("Test host exited with code " +:+ code_text code +:+ CRLF));;
  if bool_decide (code = Some 0) then
    settle Fulfilled
  else
    settle (Rejected (Error ("Test host exited with code " +:+ code_text code))).

(** The listeners of the child's error stream and of its [error] event. *)
Definition on_stderr (data : string) : M unit := Runner_appendOutput (VStr data).
Definition on_error (error_message : string) : M unit :=
  Runner_appendOutput (VStr error_message).

(** [run()] from its [await] on: the [try] statement. *)
Definition run_from_await : M unit :=
  try_finally
    (try_catch await_finished
       (λ error, console_log [LogText "await this.finished"; LogError error]))
    (skipRemainingTests;; call end_).

Definition run : M unit :=
  name ← (λ r, (r, Normal (workspaceFolder_name r)));
  Runner_appendOutput (VStr ("Running tests in " +:+ name +:+ "..." +:+ CRLF));;
  run_from_await.

(** ** Sessions

    The host's lines arrive one by one; an exception thrown by the [data]
    listener goes to the stream that emitted the event, the runner keeps
    the state it had when the listener stopped, and the next line is
    delivered as usual. *)
Definition deliver (r : Runner) (data : value) : Runner := (onData data r).1.

Definition events (datas : list value) (r : Runner) : Runner := foldl deliver r datas.

(** A whole session: the caller starts [run()], which is suspended at
    its [await] while [finished] is pending; the events of the host arrive
    in the order of the stream; the process exits; and [run()] goes on
    from its [await].  All the events are taken to arrive before the exit
    of the process. *)
Definition session (tests : Tests) (name : string) (datas : list value)
    (code : option Z) : Runner * completion unit :=
  let r := new_Runner [] name tests in
  let r := (run r).1 in
  let r := events datas r in
  let r := (on_exit code r).1 in
  run_from_await r.

(** ** Reading a session

    The notions the properties below are stated with: the fields of a
    decoded record, the tag an event is dispatched on, the terminal result
    an event carries, and the results a [TestRun] has received. *)

(** [data.name] on a decoded object. *)
Definition field (props : list (string * value)) (name : string) : value :=
  default Undefined (own name props).

(** The slots of a [counts] array that are reported: each non-null count
    with its index. *)
Definition sparse_statements (entries : list value) : list StatementCoverage :=
  omap id (imap (λ i count,
    if not_nullish count
    then Some (new_StatementCoverage count
                 (new_Position (Int (Z.of_nat i - 1)) (VNum (Int 0))))
    else None) entries).

(** The tag fields of an event record, in the order in which [onData]
    tests them. *)
Inductive tag :=
  | tag_started
  | tag_inform
  | tag_passed
  | tag_failed
  | tag_errored
  | tag_finished
  | tag_coverage.

Definition tag_name (t : tag) : string :=
  match t with
  | tag_started => "started"
  | tag_inform => "inform"
  | tag_passed => "passed"
  | tag_failed => "failed"
  | tag_errored => "errored"
  | tag_finished => "finished"
  | tag_coverage => "coverage"
  end.

Definition priority : list tag :=
  [tag_started; tag_inform; tag_passed; tag_failed; tag_errored;
   tag_finished; tag_coverage].

(** The first tag, in priority order, whose field is truthy. *)
Definition first_tag (props : list (string * value)) : option tag :=
  List.find (λ t, truthy (field props (tag_name t))) priority.

(** The transition of each tag on the record that carries it: what the
    branch of [onData] for that tag does. *)
Definition transition (t : tag) (props : list (string * value)) : M unit :=
  match t with
  | tag_started =>
      test ← lookup_test (field props "started");
      call (started test)
  | tag_inform => inform (VObj props)
  | tag_passed =>
      test ← popTest (field props "passed");
      call (passed test (field props "duration"))
  | tag_failed =>
      test ← popTest (field props "failed");
      messages ← lift (messagesFor (VObj props));
      call (failed test messages (field props "duration"))
  | tag_errored =>
      test ← popTest (field props "errored");
      messages ← lift (messagesFor (VObj props));
      call (errored test messages (field props "duration"))
  | tag_finished =>
      Runner_appendOutput (field props "message");;
      to_stdin stdin_end
  | tag_coverage => Runner_addCoverage (VObj props)
  end.

(** The result a test receives. *)
Inductive verdict :=
  | verdict_passed
  | verdict_failed
  | verdict_errored
  | verdict_skipped.

Definition tag_verdict (t : tag) : option verdict :=
  match t with
  | tag_passed => Some verdict_passed
  | tag_failed => Some verdict_failed
  | tag_errored => Some verdict_errored
  | _ => None
  end.

(** A terminal event: a record dispatched on [passed], [failed] or
    [errored], with the key its identity names in the Pending Test Set. *)
Definition terminal (data : value) : option (verdict * string) :=
  match data with
  | VObj props =>
      t ← first_tag props;
      v ← tag_verdict t;
      match ToString (field props (tag_name t)) with
      | Normal key => Some (v, key)
      | _ => None
      end
  | _ => None
  end.

(** The identities that receive a terminal event, one entry per event. *)
Definition terminal_identities (datas : list value) : list string :=
  omap (λ data, snd <$> terminal data) datas.





(** The call that reports a terminal result. *)
Definition report (v : verdict) (test : option TestItem)
    (messages : list TestMessage) (duration : value) : TestRunCall FileCoverage :=
  match v with
  | verdict_passed => passed test duration
  | verdict_failed => failed test messages duration
  | verdict_errored => errored test messages duration
  | verdict_skipped => skipped test
  end.

(** The runner after its [TestRun] received further calls. *)
Definition received (r : Runner) (calls : list (TestRunCall FileCoverage)) : Runner :=
  {| testRun := testRun r ++ calls;
     workspaceFolder_name := workspaceFolder_name r;
     tests := tests r;
     child_stdin := child_stdin r;
     finished := finished r;
     console := console r |}.

(** The line the [exit] listener appends to the output. *)
Definition exit_line (code : option Z) : string :=
  "Test host exited with code " +:+ code_text code +:+ CRLF.

(** The outcome the [exit] listener settles [finished] with. *)
Definition exit_outcome (code : option Z) : promise :=
  match code with
  | Some 0 => Fulfilled
  | _ => Rejected (Error ("Test host exited with code " +:+ code_text code))
  end.

Fixpoint no_line_feed (s : string) : bool :=
  match s with
  | "" => true
  | String c s' => negb (Ascii.eqb c LF) && no_line_feed s'
  end.

(** The calls of the epilogue for the tests that are still pending. *)
Definition skipped_calls (pending : Tests) : list (TestRunCall FileCoverage) :=
  (λ entry, skipped (Some entry.2)) <$> map_to_list pending.

(** The runner when [run()] leaves its [try ... catch]: a rejection of
    [finished] has been logged to the console. *)
Definition after_await (r : Runner) : Runner :=
  match finished r with
  | Rejected error =>
      (console_log [LogText "await this.finished"; LogError error] r).1
  | _ => r
  end.

(** The line [run()] starts with. *)
Definition running_line (r : Runner) : string :=
  join CRLF (split_lines ("Running tests in " +:+ workspaceFolder_name r +:+ "..." +:+ CRLF)).

(** A method leaves a component of the runner unchanged, however it
    completes. *)
Definition preserves {A B} (proj : Runner → B) (m : M A) : Prop :=
  ∀ r, proj (m r).1 = proj r.

(** *** Notions for the further properties *)

(** The text [appendOutput] passes on: the pieces of [text], joined with
    CR LF. *)
Definition normalize_line_endings (text : string) : string :=
  join CRLF (split_lines text).

(** Every line feed of the text comes right after a carriage return;
    [after_CR] tells whether the text itself comes after one. *)
Fixpoint line_feeds_follow_CR (after_CR : bool) (s : string) : bool :=
  match s with
  | "" => true
  | String c s' =>
      (negb (Ascii.eqb c LF) || after_CR) && line_feeds_follow_CR (Ascii.eqb c CR) s'
  end.

(** The calls [onData] makes: anything but [skipped] and [end]. *)
Definition is_event_call (c : TestRunCall FileCoverage) : bool :=
  match c with
  | skipped _ | end_ => false
  | _ => true
  end.

(** A method only adds calls to the [TestRun], all of them in [P], however
    it completes. *)
Definition appends {A} (P : TestRunCall FileCoverage → Prop) (m : M A) : Prop :=
  ∀ r, ∃ calls, testRun (m r).1 = testRun r ++ calls ∧ Forall P calls.


(** The line of a statement entry, when it is a number. *)
Definition statement_line (statement : StatementCoverage) : option Z :=
  match line (statement_location statement) with
  | Int z => Some z
  | NaN => None
  end.



(** ** Properties *)

Ltac unfold_monad :=
  unfold mbind, mret, M_bind, M_ret, completion_bind, completion_ret, lift, throw in *.

Lemma get_object props name : get (VObj props) name = Normal (field props name).
Proof. reflexivity. Qed.

(** *** Locations *)



(** *** Messages *)

(** C7, as amended: a message entry whose [actual] and [expected] are both
    truthy gives a diff-style message built from its body, [actual] and
    [expected]; any other entry, in particular one that carries only
    [text], gives a plain message.  The body is [text] when that is truthy
    and [undefined] otherwise, and the location is the one [locationFor]
    gives for the entry. *)
Theorem messageFor_diff_when_truthy props location :
  locationFor (VObj props) = Normal location →
  let body := if truthy (field props "text") then field props "text" else Undefined in
  let actual := field props "actual" in
  let expected := field props "expected" in
  messageFor (VObj props) =
    Normal (set_location
              (if truthy actual && truthy expected
               then TestMessage_diff body actual expected
               else new_TestMessage body)
              location).
Proof.
  intros Hloc. unfold messageFor, messageBodyFor. rewrite !get_object.
  simpl. rewrite Hloc.
  destruct (truthy (field props "text")); reflexivity.
Qed.

Lemma messageFor_diff_when_truthy_witness :
  messageFor (VObj [("text", VStr "expected 1 to be == 2");
                    ("actual", VStr "1"); ("expected", VStr "2");
                    ("location", VObj [("path", VStr "test/a.rb");
                                       ("line", VNum (Int 10))])])
  = Normal {| message := VStr "expected 1 to be == 2";
              diff_arguments := Some (VStr "1", VStr "2");
              location := Some (new_Location (Uri_file (VStr "test/a.rb"))
                                  (new_Position (Int 9) (VNum (Int 0)))) |}.
Proof.
  exact (messageFor_diff_when_truthy
           [("text", VStr "expected 1 to be == 2");
            ("actual", VStr "1"); ("expected", VStr "2");
            ("location", VObj [("path", VStr "test/a.rb");
                               ("line", VNum (Int 10))])]
           _ eq_refl).
Defined.

(** C7, as stated, fails: an entry that carries both [actual] and
    [expected] gives a plain message when one of them is falsy, here the
    empty string. *)
Lemma messageFor_falsy_actual_is_plain :
  ¬ (∀ props actual expected,
       own "actual" props = Some actual →
       own "expected" props = Some expected →
       ∃ m, messageFor (VObj props) = Normal m
            ∧ diff_arguments m = Some (actual, expected)).
Proof.
  intros H.
  destruct (H [("text", VStr "expected name to be == sus");
               ("actual", VStr ""); ("expected", VStr "sus")]
              (VStr "") (VStr "sus") eq_refl eq_refl) as (m & Hm & Hdiff).
  vm_compute in Hm. by simplify_eq.
Qed.

(** *** Coverage *)

Lemma statementCoverage_loop_array (before after : list value) acc :
  statementCoverage_loop (VArr (before ++ after))
    (seq (length before) (length after)) acc
  = Normal (acc ++ omap id (imap (λ i count,
      if not_nullish count
      then Some (new_StatementCoverage count
                   (new_Position (Int (Z.of_nat (length before + i) - 1)) (VNum (Int 0))))
      else None) after)).
Proof.
  revert before acc. induction after as [|count after IH]; intros before acc.
  - simpl. by rewrite app_nil_r.
  - cbn [length seq statementCoverage_loop get_index].
    rewrite list_lookup_middle by done.
    change (default Undefined (Some count)) with count.
    cbn [mbind completion_bind].
    replace (before ++ count :: after) with ((before ++ [count]) ++ after)
      by by rewrite <-app_assoc.
    replace (S (length before)) with (length (before ++ [count]))
      by (rewrite length_app; simpl; lia).
    rewrite IH. f_equal. rewrite imap_cons. cbn [omap].
    rewrite Nat.add_0_r.
    assert (Hext : omap id (imap (λ i c,
        if not_nullish c
        then Some (new_StatementCoverage c
               (new_Position (Int (Z.of_nat (length (before ++ [count]) + i) - 1)) (VNum (Int 0))))
        else None) after)
      = omap id (imap ((λ i c,
        if not_nullish c
        then Some (new_StatementCoverage c
               (new_Position (Int (Z.of_nat (length before + i) - 1)) (VNum (Int 0))))
        else None) ∘ S) after)).
    { f_equal. apply imap_ext. intros i c _. simpl.
      rewrite length_app. simpl.
      by replace (length before + 1 + i)%nat with (length before + S i)%nat by lia. }
    rewrite Hext.
    destruct (not_nullish count); simpl; [by rewrite <-app_assoc|done].
Qed.

Lemma addCoverage_array props entries r :
  own "counts" props = Some (VArr entries) →
  Runner_addCoverage (VObj props) r
  = call (addCoverage (new_FileCoverage (Uri_file (field props "coverage"))
                         (sparse_statements entries))) r.
Proof.
  intros Hcounts. unfold Runner_addCoverage. rewrite !get_object.
  unfold field. rewrite Hcounts. unfold_monad. simpl.
  rewrite Nat2Z.id.
  pose proof (statementCoverage_loop_array [] entries []) as Hloop.
  simpl in Hloop. rewrite Hloop. reflexivity.
Qed.

Lemma executed_of_reported_slots (at_line : nat → number) entries :
  executed <$> omap id (imap (λ i count,
      if not_nullish count
      then Some (new_StatementCoverage count (new_Position (at_line i) (VNum (Int 0))))
      else None) entries)
  = filter (λ count, not_nullish count) entries.
Proof.
  revert at_line. induction entries as [|count entries IH]; intros at_line; [done|].
  rewrite imap_cons. cbn [omap]. rewrite filter_cons.
  specialize (IH (at_line ∘ S)).
  destruct (not_nullish count); simpl; [f_equal|]; apply IH.
Qed.

Lemma sparse_statements_executed entries :
  executed <$> sparse_statements entries = filter (λ count, not_nullish count) entries.
Proof. apply (executed_of_reported_slots (λ i, Int (Z.of_nat i - 1))). Qed.

(** C5: the coverage record of a coverage event has one statement entry
    for each non-null slot of the [counts] array, in the order of the
    array, and none for a null slot; a zero count is kept.  The counts
    [[null, 3, 0, null, 5]] give exactly three entries. *)
Theorem addCoverage_one_entry_per_count props entries r :
  own "counts" props = Some (VArr entries) →
  ∃ details,
    Runner_addCoverage (VObj props) r
    = call (addCoverage (new_FileCoverage (Uri_file (field props "coverage")) details)) r
    ∧ executed <$> details = filter (λ count, not_nullish count) entries
    ∧ (entries = [Null; VNum (Int 3); VNum (Int 0); Null; VNum (Int 5)] →
       length details = 3%nat
       ∧ executed <$> details = [VNum (Int 3); VNum (Int 0); VNum (Int 5)]).
Proof.
  intros Hcounts. exists (sparse_statements entries).
  split; [by apply addCoverage_array|].
  split; [apply sparse_statements_executed|].
  intros ->. split; reflexivity.
Qed.

Lemma addCoverage_one_entry_per_count_witness :
  ∃ details,
    (Runner_addCoverage
       (VObj [("coverage", VStr "lib/a.rb");
              ("counts", VArr [Null; VNum (Int 3); VNum (Int 0); Null; VNum (Int 5)])])
       (new_Runner [] "sus" ∅)).1.(testRun)
    = [addCoverage (new_FileCoverage (Uri_file (VStr "lib/a.rb")) details)]
    ∧ length details = 3%nat.
Proof.
  destruct (addCoverage_one_entry_per_count
              [("coverage", VStr "lib/a.rb");
               ("counts", VArr [Null; VNum (Int 3); VNum (Int 0); Null; VNum (Int 5)])]
              [Null; VNum (Int 3); VNum (Int 0); Null; VNum (Int 5)]
              (new_Runner [] "sus" ∅) eq_refl)
    as (details & Hrun & _ & Hexample).
  exists details. rewrite Hrun. split; [reflexivity|].
  exact (proj1 (Hexample eq_refl)).
Defined.



(** *** Dispatch *)

Lemma onData_dispatch props r :
  onData (VObj props) r =
    match first_tag props with
    | Some t => transition t props r
    | None => (r, Normal ())
    end.
Proof.
  unfold onData, first_tag, priority. rewrite !get_object.
  cbn [List.find tag_name]. unfold_monad.
  repeat (match goal with
          | |- context [truthy (field props ?name)] =>
              destruct (truthy (field props name)); [reflexivity|]
          end).
  reflexivity.
Qed.

Lemma find_first {A} (P : A → bool) before x after :
  Forall (λ y, P y = false) before → P x = true →
  List.find P (before ++ x :: after) = Some x.
Proof.
  intros Hbefore Hx. induction Hbefore as [|y before Hy _ IH]; simpl.
  - by rewrite Hx.
  - by rewrite Hy.
Qed.

Lemma find_none {A} (P : A → bool) l :
  Forall (λ y, P y = false) l → List.find P l = None.
Proof. intros Hl. induction Hl as [|y l Hy _ IH]; simpl; [done|by rewrite Hy]. Qed.

(** C10: on a decoded record, [onData] applies the transition of the first
    tag, in the order started, inform, passed, failed, errored, finished,
    coverage, whose field is truthy, and no other: when the fields of the
    tags before [t] are falsy and that of [t] is truthy, the transition of
    [t] is applied, whatever the fields of the tags after it.  A record
    none of whose tag fields is truthy leaves the runner as it is. *)
Theorem onData_first_truthy_tag props r :
  onData (VObj props) r =
    match List.find (λ t, truthy (field props (tag_name t)))
            [tag_started; tag_inform; tag_passed; tag_failed; tag_errored;
             tag_finished; tag_coverage] with
    | Some t => transition t props r
    | None => (r, Normal ())
    end
  ∧ (∀ before t after,
       [tag_started; tag_inform; tag_passed; tag_failed; tag_errored;
        tag_finished; tag_coverage] = before ++ t :: after →
       Forall (λ t', truthy (field props (tag_name t')) = false) before →
       truthy (field props (tag_name t)) = true →
       onData (VObj props) r = transition t props r)
  ∧ (Forall (λ t, truthy (field props (tag_name t)) = false)
       [tag_started; tag_inform; tag_passed; tag_failed; tag_errored;
        tag_finished; tag_coverage] →
     onData (VObj props) r = (r, Normal ())).
Proof.
  split; [apply onData_dispatch|]. split.
  - intros before t after Hpriority Hbefore Ht.
    rewrite onData_dispatch. unfold first_tag, priority. rewrite Hpriority.
    by rewrite (find_first (λ t, truthy (field props (tag_name t)))).
  - intros Hfalsy. rewrite onData_dispatch. unfold first_tag, priority.
    by rewrite (find_none (λ t, truthy (field props (tag_name t)))).
Qed.

(** A record with both [passed] and [failed]: [passed] comes first.  A
    record whose only tag is the empty identity: nothing happens. *)
Lemma onData_first_truthy_tag_witness :
  let r := new_Runner [] "sus" {["A" := TestItemRef 1; "" := TestItemRef 2]} in
  onData (VObj [("failed", VStr "A"); ("passed", VStr "A"); ("duration", VNum (Int 5))]) r
  = transition tag_passed
      [("failed", VStr "A"); ("passed", VStr "A"); ("duration", VNum (Int 5))] r
  ∧ onData (VObj [("passed", VStr ""); ("duration", VNum (Int 3))]) r = (r, Normal ()).
Proof.
  intros r. split.
  - apply (proj1 (proj2 (onData_first_truthy_tag _ r))
             [tag_started; tag_inform] tag_passed
             [tag_failed; tag_errored; tag_finished; tag_coverage]);
      [reflexivity|by repeat constructor|reflexivity].
  - apply (proj2 (proj2 (onData_first_truthy_tag _ r))). by repeat constructor.
Defined.

(** A record with several tags: only [started] is applied, the identity
    stays pending. *)
Example onData_started_and_passed :
  let r := new_Runner [] "sus" {["A" := TestItemRef 1]} in
  onData (VObj [("passed", VStr "A"); ("started", VStr "A")]) r
  = call (started (Some (TestItemRef 1))) r.
Proof. reflexivity. Qed.

(** A record whose only tag is the empty identity is ignored. *)
Example onData_empty_identity :
  let r := new_Runner [] "sus" {["" := TestItemRef 1]} in
  onData (VObj [("passed", VStr ""); ("duration", VNum (Int 3))]) r = (r, Normal ()).
Proof. reflexivity. Qed.

(** *** What a method leaves unchanged *)

Lemma preserves_ret {A B} (proj : Runner → B) (a : A) : preserves proj (mret a).
Proof. by intros r. Qed.

Lemma preserves_lift {A B} (proj : Runner → B) (c : completion A) :
  preserves proj (lift c).
Proof. by intros r. Qed.

Lemma preserves_bind {A A' B} (proj : Runner → B) (m : M A) (f : A → M A') :
  preserves proj m → (∀ a, preserves proj (f a)) → preserves proj (m ≫= f).
Proof.
  intros Hm Hf r. unfold mbind, M_bind. specialize (Hm r).
  destruct (m r) as [r' [a|e|]]; simpl in *; [|done..].
  by rewrite Hf.
Qed.

Lemma preserves_for_each {A B} (proj : Runner → B) (xs : list A) (body : A → M unit) :
  (∀ x, preserves proj (body x)) → preserves proj (for_each xs body).
Proof.
  intros Hbody. induction xs as [|x xs IH]; simpl.
  - apply preserves_ret.
  - apply preserves_bind; [apply Hbody|]. by intros _.
Qed.

Lemma preserves_try_catch {A B} (proj : Runner → B) (body : M A) (handler : exn → M A) :
  preserves proj body → (∀ e, preserves proj (handler e)) →
  preserves proj (try_catch body handler).
Proof.
  intros Hb Hh r. unfold try_catch. specialize (Hb r).
  destruct (body r) as [r' [a|e|]]; simpl in *; [done| |done].
  by rewrite Hh.
Qed.

Lemma preserves_try_finally {A B} (proj : Runner → B) (body : M A) (finalizer : M unit) :
  preserves proj body → preserves proj finalizer →
  preserves proj (try_finally body finalizer).
Proof.
  intros Hb Hf r. unfold try_finally. specialize (Hb r).
  destruct (body r) as [r' [a|e|]]; simpl in *; [| |done];
    specialize (Hf r'); by destruct (finalizer r') as [r'' [[]|e'|]]; simpl in *; rewrite Hf.
Qed.

Create HintDb preserves discriminated.
#[local] Hint Resolve preserves_ret preserves_lift preserves_bind preserves_for_each
  preserves_try_catch preserves_try_finally : preserves.

Ltac preserves_step :=
  match goal with
  | |- preserves _ (mret _) => apply preserves_ret
  | |- preserves _ (lift _) => apply preserves_lift
  | |- preserves _ (throw _) => apply preserves_lift
  | |- preserves _ (_ ≫= _) => apply preserves_bind; [|intros ?]
  | |- preserves _ (for_each _ _) => apply preserves_for_each; intros ?
  | |- preserves _ (try_catch _ _) => apply preserves_try_catch; [|intros ?]
  | |- preserves _ (try_finally _ _) => apply preserves_try_finally
  | |- preserves _ (if ?b then _ else _) => destruct b
  | |- preserves _ (match ?v with _ => _ end) => destruct v
  | |- preserves _ _ => by intros ?
  end.

Ltac solve_preserves := repeat preserves_step; eauto with preserves.

(** Nothing but [settle] touches the [finished] promise. *)
Lemma call_preserves_finished c : preserves finished (call c).
Proof. by intros r. Qed.

Lemma lookup_test_preserves {B} (proj : Runner → B) identity :
  preserves proj (lookup_test identity).
Proof. unfold lookup_test, get_tests. solve_preserves. Qed.

Lemma popTest_preserves_finished identity : preserves finished (popTest identity).
Proof.
  unfold popTest. solve_preserves; try apply lookup_test_preserves.
Qed.

Lemma appendOutput_preserves_finished text : preserves finished (Runner_appendOutput text).
Proof. unfold Runner_appendOutput. solve_preserves. Qed.

Lemma appendOutput_preserves_tests text : preserves tests (Runner_appendOutput text).
Proof. unfold Runner_appendOutput. solve_preserves. Qed.


Ltac preserves_unfold :=
  unfold inform, Runner_addCoverage, Runner_appendOutput, lookup_test, get_tests,
    skipRemainingTests, to_stdin, console_log.



Lemma inform_preserves_finished data : preserves finished (inform data).
Proof. preserves_unfold. solve_preserves. Qed.

Lemma inform_preserves_tests data : preserves tests (inform data).
Proof. preserves_unfold. solve_preserves. Qed.


Lemma addCoverage_preserves_finished data : preserves finished (Runner_addCoverage data).
Proof. preserves_unfold. solve_preserves. Qed.

Lemma addCoverage_preserves_tests data : preserves tests (Runner_addCoverage data).
Proof. preserves_unfold. solve_preserves. Qed.


Lemma transition_preserves_finished t props : preserves finished (transition t props).
Proof.
  destruct t; simpl;
    auto using inform_preserves_finished, addCoverage_preserves_finished;
    solve_preserves;
    auto using popTest_preserves_finished, lookup_test_preserves,
      appendOutput_preserves_finished.
Qed.

(** A transition that is not terminal neither changes the Pending Test Set
    nor reports a result. *)
Lemma transition_preserves_tests t props :
  tag_verdict t = None → preserves tests (transition t props).
Proof.
  destruct t; simpl; try done; intros _;
    auto using inform_preserves_tests, addCoverage_preserves_tests;
    solve_preserves; auto using lookup_test_preserves, appendOutput_preserves_tests.
Qed.


(** On anything but a decoded object, [onData] does nothing, or throws on
    its first property read. *)
Lemma onData_not_object data r :
  (∀ props, data ≠ VObj props) → (onData data r).1 = r.
Proof. intros Hdata. destruct data; try reflexivity. by destruct (Hdata props). Qed.

Lemma onData_preserves_finished data : preserves finished (onData data).
Proof.
  intros r. destruct data; try reflexivity.
  rewrite onData_dispatch. destruct (first_tag props); [|done].
  apply transition_preserves_finished.
Qed.

(** *** The Pending Test Set *)


Lemma popTest_normal identity key r :
  ToString identity = Normal key →
  popTest identity r = ((set_tests (delete key (tests r)) r).1, Normal (tests r !! key)).
Proof. intros Hkey. unfold popTest, lookup_test. unfold_monad. by rewrite Hkey. Qed.

Lemma popTest_abrupt identity r :
  (∀ key, ToString identity ≠ Normal key) →
  (popTest identity r).1 = r ∧ ∀ test, (popTest identity r).2 ≠ Normal test.
Proof.
  intros Hkey. unfold popTest, lookup_test. unfold_monad.
  destruct (ToString identity) as [key| |]; [by destruct (Hkey key)|done..].
Qed.


(** The transition of a terminal tag, once the identity is read as a key:
    the key is removed, the messages are resolved if the tag has any, and
    the result is reported against the handle the key had. *)
Lemma terminal_transition t v props key r :
  tag_verdict t = Some v →
  ToString (field props (tag_name t)) = Normal key →
  transition t props r =
    (messages ← (match v with
                 | verdict_passed => mret []
                 | _ => lift (messagesFor (VObj props))
                 end);
     call (report v (tests r !! key) messages (field props "duration")))
      (set_tests (delete key (tests r)) r).1.
Proof.
  intros Hv Hkey. destruct t; simplify_eq/=;
    unfold mbind at 1, M_bind at 1; by rewrite (popTest_normal _ key).
Qed.

Lemma terminal_transition_abrupt t v props r :
  tag_verdict t = Some v →
  (∀ key, ToString (field props (tag_name t)) ≠ Normal key) →
  (transition t props r).1 = r.
Proof.
  intros Hv Hkey.
  destruct (popTest_abrupt (field props (tag_name t)) r Hkey) as [Hr Hc].
  destruct t; simplify_eq/=; unfold mbind, M_bind;
    destruct (popTest _ r) as [r' [test| |]]; simpl in *;
    solve [done | by destruct (Hc test)].
Qed.

Lemma tests_after_event data r :
  tests (deliver r data) =
    match terminal data with
    | Some (_, key) => delete key (tests r)
    | None => tests r
    end.
Proof.
  unfold deliver. destruct data; try reflexivity.
  rewrite onData_dispatch. unfold terminal.
  destruct (first_tag props) as [t|]; [|done]. simpl.
  destruct (tag_verdict t) as [v|] eqn:Hv; simpl;
    [|by apply transition_preserves_tests].
  destruct (ToString (field props (tag_name t))) as [key|e|] eqn:Hkey;
    [|by rewrite (terminal_transition_abrupt t v) by (done || congruence)..].
  rewrite (terminal_transition t v props key) by done.
  set (r' := (set_tests _ r).1).
  change (delete key (tests r)) with (tests r').
  generalize r'. change (preserves tests
    (messages ← (match v with
                 | verdict_passed => mret []
                 | _ => lift (messagesFor (VObj props))
                 end);
     call (report v (tests r !! key) messages (field props "duration")))).
  solve_preserves.
Qed.




(** *** Output lines *)

Lemma no_line_feed_app s1 s2 :
  no_line_feed s1 = true → no_line_feed s2 = true → no_line_feed (s1 +:+ s2) = true.
Proof.
  intros H1 H2. induction s1 as [|c s1 IH]; [done|].
  simpl in *. apply andb_true_iff in H1 as [Hc H1].
  rewrite Hc. simpl. by apply IH.
Qed.

Lemma no_line_feed_pretty_N_go x s :
  no_line_feed s = true → no_line_feed (pretty_N_go x s) = true.
Proof.
  revert s. induction (N.lt_wf_0 x) as [x _ IH]; intros s Hs.
  destruct (decide (x = 0)%N) as [->|Hx]; [by rewrite pretty_N_go_0|].
  rewrite pretty_N_go_step by lia. apply IH; [apply N.div_lt; lia|].
  simpl. rewrite Hs, andb_true_r.
  unfold pretty_N_char. by repeat case_match.
Qed.

Lemma no_line_feed_pretty_positive (p : positive) : no_line_feed (pretty p) = true.
Proof.
  unfold pretty, pretty_positive, pretty, pretty_N.
  rewrite decide_False by done. by apply no_line_feed_pretty_N_go.
Qed.

Lemma no_line_feed_code_text code : no_line_feed (code_text code) = true.
Proof.
  destruct code as [[|p|p]|]; try done; simpl.
  - apply no_line_feed_pretty_positive.
  - unfold pretty, pretty_Z. apply no_line_feed_app; [done|].
    apply no_line_feed_pretty_positive.
Qed.

(** A text without line feed that ends with CR LF is appended as it is. *)
Lemma split_lines_one_line s :
  no_line_feed s = true → split_lines (s +:+ CRLF) = [s; ""].
Proof.
  induction s as [|c s IH]; [done|]. intros Hs. simpl in Hs.
  apply andb_true_iff in Hs as [Hc Hs]. apply negb_true_iff in Hc.
  change (String c s +:+ CRLF) with (String c (s +:+ CRLF)).
  cbn [split_lines]. rewrite Hc, IH by done.
  assert (starts_with_LF (s +:+ CRLF) = false) as ->.
  { destruct s as [|c' s]; [done|]. simpl in Hs.
    apply andb_true_iff in Hs as [Hc' _]. by apply negb_true_iff in Hc'. }
  by rewrite andb_false_r.
Qed.

Lemma string_app_assoc (s1 s2 s3 : string) : (s1 +:+ s2) +:+ s3 = s1 +:+ s2 +:+ s3.
Proof.
  induction s1 as [|c s1 IH]; [done|].
  change (String c ((s1 +:+ s2) +:+ s3) = String c (s1 +:+ s2 +:+ s3)).
  by rewrite IH.
Qed.

Lemma appendOutput_one_line s r :
  no_line_feed s = true →
  Runner_appendOutput (VStr (s +:+ CRLF)) r
  = (received r [appendOutput (s +:+ CRLF) None None], Normal ()).
Proof.
  intros Hs. unfold Runner_appendOutput. rewrite split_lines_one_line by done.
  reflexivity.
Qed.

Lemma appendOutput_exit_line code r :
  Runner_appendOutput (VStr (exit_line code)) r
  = (received r [appendOutput (exit_line code) None None], Normal ()).
Proof.
  unfold exit_line. rewrite <-string_app_assoc.
  apply appendOutput_one_line, no_line_feed_app; [done|apply no_line_feed_code_text].
Qed.

(** *** The epilogue *)

Lemma received_received r calls calls' :
  received (received r calls) calls' = received r (calls ++ calls').
Proof. unfold received. simpl. by rewrite <-app_assoc. Qed.

Lemma received_nil r : received r [] = r.
Proof. destruct r. unfold received. simpl. by rewrite app_nil_r. Qed.

Lemma skip_entry identity test r :
  tests r !! identity = Some test →
  (handle ← lookup_test (VStr identity); call (skipped handle)) r
  = (received r [skipped (Some test)], Normal ()).
Proof.
  intros Hlookup. unfold lookup_test, get_tests, mbind, M_bind, mret, M_ret, lift.
  simpl. by rewrite Hlookup.
Qed.

Lemma skip_entries (pending : Tests) entries r :
  tests r = pending →
  (∀ entry, entry ∈ entries → pending !! entry.1 = Some entry.2) →
  for_each entries.*1 (λ identity,
    handle ← lookup_test (VStr identity); call (skipped handle)) r
  = (received r ((λ entry, skipped (Some entry.2)) <$> entries), Normal ()).
Proof.
  revert r. induction entries as [|[identity test] entries IH]; intros r Hr Hentries.
  - simpl. by rewrite received_nil.
  - cbn [fmap list_fmap for_each fst snd]. unfold mbind at 1, M_bind at 1.
    rewrite (skip_entry identity test).
    + rewrite IH; [by rewrite received_received|done|].
      intros entry Hentry. apply Hentries. by right.
    + rewrite Hr. apply (Hentries (identity, test)). by left.
Qed.

Lemma skipRemainingTests_skips_pending r :
  skipRemainingTests r = (received r (skipped_calls (tests r)), Normal ()).
Proof.
  unfold skipRemainingTests, get_tests. unfold mbind at 1, M_bind at 1.
  apply (skip_entries (tests r)); [done|].
  intros [identity test] Hentry. by apply elem_of_map_to_list.
Qed.

Lemma run_from_await_settled r :
  finished r ≠ Pending →
  run_from_await r
  = (received (after_await r) (skipped_calls (tests r) ++ [end_]), Normal ()).
Proof.
  intros Hsettled. unfold run_from_await, try_finally, try_catch, await_finished, after_await.
  destruct (finished r) as [| |error] eqn:Hfinished; [done| |];
    unfold mbind, M_bind, console_log; cbn beta iota;
    rewrite skipRemainingTests_skips_pending; cbn beta iota;
    unfold call, received; simpl; by rewrite <-app_assoc.
Qed.

(** An identity that received a terminal event stays out of the set. *)
Lemma absent_after_event data key r :
  tests r !! key = None → tests (deliver r data) !! key = None.
Proof.
  intros Habsent. rewrite tests_after_event.
  destruct (terminal data) as [[v k]|]; [|done].
  destruct (decide (k = key)) as [->|Hne].
  - apply lookup_delete_eq.
  - by rewrite lookup_delete_ne.
Qed.

Lemma absent_after_events datas key r :
  tests r !! key = None → tests (events datas r) !! key = None.
Proof.
  revert r. induction datas as [|data datas IH]; intros r Habsent; [done|].
  apply IH. by apply absent_after_event.
Qed.

Lemma removed_after_events datas key r :
  key ∈ terminal_identities datas → tests (events datas r) !! key = None.
Proof.
  revert r. induction datas as [|data datas IH]; intros r Hkey.
  - by apply elem_of_nil in Hkey.
  - change (events (data :: datas) r) with (events datas (deliver r data)).
    unfold terminal_identities in Hkey. cbn [omap list_omap] in Hkey.
    destruct (terminal data) as [[v k]|] eqn:Hterminal; simpl in Hkey.
    + apply elem_of_cons in Hkey as [->|Hkey]; [|by apply IH].
      apply absent_after_events. rewrite tests_after_event, Hterminal.
      apply lookup_delete_eq.
    + by apply IH.
Qed.

(** C4: an identity that a terminal event removed from the Pending Test
    Set, at any point of the event sequence, is not in the set when the
    events are over, and the epilogue reports as skipped exactly the
    entries that are still in the set, none of which is that identity. *)
Theorem removed_identity_not_skipped datas key r :
  key ∈ terminal_identities datas →
  let r' := events datas r in
  tests r' !! key = None
  ∧ skipRemainingTests r'
    = (received r' ((λ entry, skipped (Some entry.2)) <$> map_to_list (tests r')),
       Normal ())
  ∧ key ∉ (map_to_list (tests r')).*1.
Proof.
  intros Hkey r'.
  assert (Hremoved : tests r' !! key = None) by by apply removed_after_events.
  split; [done|]. split; [apply skipRemainingTests_skips_pending|].
  intros Hin. apply list_elem_of_fmap in Hin as ([k test] & -> & Hentry).
  apply elem_of_map_to_list in Hentry. simpl in Hremoved. congruence.
Qed.

(** The scenario of the spec: [A] starts and passes, [B] gets no event. *)
Lemma removed_identity_not_skipped_witness :
  let r' := events [VObj [("started", VStr "A")];
                    VObj [("passed", VStr "A"); ("duration", VNum (Int 12))]]
              (new_Runner [] "sus" {["A" := TestItemRef 1; "B" := TestItemRef 2]}) in
  tests r' !! "A" = None
  ∧ (skipRemainingTests r').1.(testRun)
    = [started (Some (TestItemRef 1)); passed (Some (TestItemRef 1)) (VNum (Int 12));
       skipped (Some (TestItemRef 2))].
Proof.
  intros r'.
  destruct (removed_identity_not_skipped
              [VObj [("started", VStr "A")];
               VObj [("passed", VStr "A"); ("duration", VNum (Int 12))]]
              "A" (new_Runner [] "sus" {["A" := TestItemRef 1; "B" := TestItemRef 2]}))
    as (Hremoved & Hskip & _).
  { vm_compute. apply list_elem_of_here. }
  split; [exact Hremoved|]. fold r' in Hskip. rewrite Hskip. reflexivity.
Defined.

(** *** The exit of the host process *)

Lemma events_preserve_finished datas r : finished (events datas r) = finished r.
Proof.
  revert r. induction datas as [|data datas IH]; intros r; [done|].
  change (events (data :: datas) r) with (events datas (deliver r data)).
  rewrite IH. apply onData_preserves_finished.
Qed.

Lemma run_pending r :
  finished r = Pending →
  run r = (received r [appendOutput (running_line r) None None], Suspended).
Proof.
  intros Hpending. unfold run. unfold mbind at 1 2, M_bind at 1 2. cbn beta iota.
  change (Runner_appendOutput (VStr ?text) r)
    with (received r [appendOutput (join CRLF (split_lines text)) None None], Normal ()).
  cbn beta iota. fold (running_line r).
  unfold run_from_await, try_finally, try_catch, await_finished.
  cbn [finished received]. by rewrite Hpending.
Qed.

Lemma on_exit_settles code r :
  on_exit code r
  = settle (exit_outcome code)
      (received (console_log [LogText "Test host exited with code"; LogCode code] r).1
         [appendOutput (exit_line code) None None]).
Proof.
  unfold on_exit. unfold mbind at 1 2, M_bind at 1 2. unfold console_log at 1.
  cbn beta iota. fold (exit_line code). rewrite appendOutput_exit_line.
  cbn beta iota. unfold exit_outcome.
  destruct code as [[|p|p]|]; reflexivity.
Qed.



(** *** [run()] *)

Lemma after_await_received r calls :
  after_await (received r calls) = received (after_await r) calls.
Proof. unfold after_await. cbn [finished received]. by destruct (finished r). Qed.

Lemma run_settled r :
  finished r ≠ Pending →
  run r
  = (received (after_await r)
       (appendOutput (running_line r) None None :: skipped_calls (tests r) ++ [end_]),
     Normal ()).
Proof.
  intros Hsettled.
  unfold run. unfold mbind at 1 2, M_bind at 1 2. cbn beta iota.
  change (Runner_appendOutput (VStr ?text) r)
    with (received r [appendOutput (join CRLF (split_lines text)) None None], Normal ()).
  cbn beta iota. fold (running_line r).
  rewrite run_from_await_settled by done.
  rewrite after_await_received, received_received. reflexivity.
Qed.

(** In a session, [run()] goes on from its [await] with [finished]
    settled. *)
Lemma session_epilogue (pending : Tests) name datas code :
  let r := (on_exit code (events datas (run (new_Runner [] name pending)).1)).1 in
  finished r ≠ Pending
  ∧ session pending name datas code
    = (received (after_await r) (skipped_calls (tests r) ++ [end_]), Normal ()).
Proof.
  intros r.
  assert (Hsettled : finished r ≠ Pending).
  { unfold r. rewrite run_pending, on_exit_settles by done. simpl.
    rewrite events_preserve_finished. simpl.
    unfold exit_outcome. by destruct code as [[|p|p]|]. }
  split; [done|]. unfold session. fold r. by apply run_from_await_settled.
Qed.

(** C3: once [finished] is settled, fulfilled or rejected, [run()]
    completes normally: a rejection is caught and logged to the console,
    and in both cases every test still in the Pending Test Set is reported
    skipped and the run is ended, in this order.  This holds for [run()]
    as a whole and for its continuation after the [await]; and in every
    session [finished] is settled when the process has exited, so that
    [run()] completes normally with this epilogue. *)
Theorem run_reaches_epilogue :
  (∀ r, finished r ≠ Pending →
     run_from_await r
     = (received (after_await r) (skipped_calls (tests r) ++ [end_]), Normal ())
     ∧ run r
       = (received (after_await r)
            (appendOutput (running_line r) None None
             :: skipped_calls (tests r) ++ [end_]),
          Normal ()))
  ∧ (∀ (pending : Tests) name datas code,
       let r := (on_exit code (events datas (run (new_Runner [] name pending)).1)).1 in
       finished r ≠ Pending
       ∧ session pending name datas code
         = (received (after_await r) (skipped_calls (tests r) ++ [end_]), Normal ())).
Proof.
  split.
  - intros r Hsettled. split; [by apply run_from_await_settled|by apply run_settled].
  - apply session_epilogue.
Qed.

(** Both outcomes: the host exits with code 1, and with code 0. *)
Lemma run_reaches_epilogue_witness :
  let pending : Tests := {["A" := TestItemRef 1; "B" := TestItemRef 2]} in
  let datas := [VObj [("passed", VStr "A"); ("duration", VNum (Int 12))]] in
  let r code := (on_exit code (events datas (run (new_Runner [] "sus" pending)).1)).1 in
  (run_from_await (r (Some 1))).2 = Normal ()
  ∧ (run_from_await (r (Some 0))).2 = Normal ()
  ∧ (run_from_await (r (Some 1))).1.(testRun)
    = testRun (r (Some 1)) ++ [skipped (Some (TestItemRef 2)); end_].
Proof.
  intros pending datas r.
  destruct (proj1 run_reaches_epilogue (r (Some 1)) ltac:(vm_compute; discriminate))
    as [Hrejected _].
  destruct (proj1 run_reaches_epilogue (r (Some 0)) ltac:(vm_compute; discriminate))
    as [Hfulfilled _].
  rewrite Hrejected, Hfulfilled. repeat split.
Defined.

(** *** Every requested test is reported once *)












(** *** The scenarios of the spec *)

(** The session starts with [A] and [B]; the host emits [started A] and
    [passed A] and exits with code 1 before it reports [B]: [A] is passed,
    [B] is skipped, [finished] is rejected, and the output has the line of
    the exit. *)
Example scenario_exit_before_all_reported :
  let outcome :=
    session {["A" := TestItemRef 1; "B" := TestItemRef 2]} "sus"
      [VObj [("started", VStr "A")];
       VObj [("passed", VStr "A"); ("duration", VNum (Int 12))]]
      (Some 1) in
  testRun outcome.1
  = [appendOutput ("Running tests in sus..." +:+ CRLF) None None;
     started (Some (TestItemRef 1));
     passed (Some (TestItemRef 1)) (VNum (Int 12));
     appendOutput ("Test host exited with code 1" +:+ CRLF) None None;
     skipped (Some (TestItemRef 2));
     end_]
  ∧ finished outcome.1 = Rejected (Error "Test host exited with code 1")
  ∧ outcome.2 = Normal ().
Proof. vm_compute. done. Qed.

(** [finished] arrives before any terminal event for [A]: the input of the
    host is closed, and [A] is skipped at the end. *)
Example scenario_finished_before_terminal :
  let outcome :=
    session {["A" := TestItemRef 1]} "sus"
      [VObj [("finished", VBool true); ("message", VStr "1 passed")]]
      (Some 0) in
  testRun outcome.1
  = [appendOutput ("Running tests in sus..." +:+ CRLF) None None;
     appendOutput "1 passed" None None;
     appendOutput ("Test host exited with code 0" +:+ CRLF) None None;
     skipped (Some (TestItemRef 1));
     end_]
  ∧ child_stdin outcome.1 = [stdin_write_run ["A"]; stdin_end]
  ∧ finished outcome.1 = Fulfilled
  ∧ outcome.2 = Normal ().
Proof. vm_compute. done. Qed.

(** ** Further properties of the runner *)

(** *** [appendOutput] *)

Lemma split_lines_nonempty s : split_lines s ≠ [].
Proof.
  induction s as [|c s IH]; [done|]. simpl.
  destruct (Ascii.eqb c LF); [done|].
  destruct (Ascii.eqb c CR && starts_with_LF s); [done|].
  by destruct (split_lines s).
Qed.

Lemma split_lines_no_line_feed s : Forall (λ piece, no_line_feed piece = true) (split_lines s).
Proof.
  induction s as [|c s IH]; [by repeat constructor|]. simpl.
  destruct (Ascii.eqb c LF) eqn:Hc; [by constructor|].
  destruct (Ascii.eqb c CR && starts_with_LF s); [done|].
  pose proof (split_lines_nonempty s) as Hne.
  destruct (split_lines s) as [|piece pieces]; [done|].
  apply Forall_cons in IH as [Hpiece Hpieces]. constructor; [|done].
  simpl. by rewrite Hc, Hpiece.
Qed.

Lemma no_line_feed_starts s : no_line_feed s = true → starts_with_LF s = false.
Proof.
  destruct s as [|c s]; [done|]. simpl. intros [Hc _]%andb_true_iff.
  by apply negb_true_iff in Hc.
Qed.

Lemma split_lines_piece s t :
  no_line_feed s = true → split_lines (s +:+ CRLF +:+ t) = s :: split_lines t.
Proof.
  induction s as [|c s IH]; intros Hs.
  - reflexivity.
  - simpl in Hs. apply andb_true_iff in Hs as [Hc Hs]. apply negb_true_iff in Hc.
    change (String c s +:+ CRLF +:+ t) with (String c (s +:+ CRLF +:+ t)).
    cbn [split_lines]. rewrite Hc, IH by done.
    assert (starts_with_LF (s +:+ CRLF +:+ t) = false) as ->.
    { destruct s as [|c' s]; [done|]. by apply (no_line_feed_starts (String c' s)) in Hs. }
    by rewrite andb_false_r.
Qed.

Lemma split_lines_single s : no_line_feed s = true → split_lines s = [s].
Proof.
  induction s as [|c s IH]; [done|]. intros Hs. simpl in Hs.
  apply andb_true_iff in Hs as [Hc Hs]. apply negb_true_iff in Hc.
  cbn [split_lines]. rewrite Hc, IH, no_line_feed_starts by done.
  by rewrite andb_false_r.
Qed.

(** Splitting what [join] put together gives the pieces back. *)
Lemma split_lines_join pieces :
  pieces ≠ [] → Forall (λ piece, no_line_feed piece = true) pieces →
  split_lines (join CRLF pieces) = pieces.
Proof.
  intros Hne Hpieces. induction Hpieces as [|piece pieces Hpiece Hpieces IH]; [done|].
  destruct pieces as [|piece' pieces].
  - by apply split_lines_single.
  - change (join CRLF (piece :: piece' :: pieces))
      with (piece +:+ CRLF +:+ join CRLF (piece' :: pieces)).
    rewrite split_lines_piece by done. f_equal. by apply IH.
Qed.

Lemma line_feeds_follow_CR_single s after_CR :
  no_line_feed s = true → line_feeds_follow_CR after_CR s = true.
Proof.
  revert after_CR. induction s as [|c s IH]; intros after_CR Hs; [done|].
  simpl in *. apply andb_true_iff in Hs as [Hc Hs]. rewrite Hc. simpl. by apply IH.
Qed.

Lemma line_feeds_follow_CR_piece s t after_CR :
  no_line_feed s = true → line_feeds_follow_CR false t = true →
  line_feeds_follow_CR after_CR (s +:+ CRLF +:+ t) = true.
Proof.
  revert after_CR. induction s as [|c s IH]; intros after_CR Hs Ht.
  - change (line_feeds_follow_CR after_CR (String CR (String LF t)) = true).
    simpl. by rewrite Ht.
  - simpl in Hs. apply andb_true_iff in Hs as [Hc Hs].
    change (String c s +:+ CRLF +:+ t) with (String c (s +:+ CRLF +:+ t)).
    cbn [line_feeds_follow_CR]. rewrite Hc. simpl. by apply IH.
Qed.

Lemma line_feeds_follow_CR_join pieces :
  Forall (λ piece, no_line_feed piece = true) pieces →
  line_feeds_follow_CR false (join CRLF pieces) = true.
Proof.
  intros Hpieces. induction Hpieces as [|piece pieces Hpiece Hpieces IH]; [done|].
  destruct pieces as [|piece' pieces].
  - by apply line_feeds_follow_CR_single.
  - change (join CRLF (piece :: piece' :: pieces))
      with (piece +:+ CRLF +:+ join CRLF (piece' :: pieces)).
    by apply line_feeds_follow_CR_piece.
Qed.

Lemma normalize_line_endings_lines s :
  split_lines (normalize_line_endings s) = split_lines s.
Proof.
  apply split_lines_join; [apply split_lines_nonempty|apply split_lines_no_line_feed].
Qed.

(** X1: [appendOutput] on a string never throws and appends one output,
    in which every line feed comes right after a carriage return, and
    which has the same lines as the text: bare line feeds become CR LF,
    nothing else changes. *)
Theorem appendOutput_line_endings s r :
  Runner_appendOutput (VStr s) r
  = (received r [appendOutput (normalize_line_endings s) None None], Normal ())
  ∧ line_feeds_follow_CR false (normalize_line_endings s) = true
  ∧ split_lines (normalize_line_endings s) = split_lines s.
Proof.
  split; [reflexivity|]. split; [|apply normalize_line_endings_lines].
  apply line_feeds_follow_CR_join, split_lines_no_line_feed.
Qed.

(** X2: the text [appendOutput] passes on is a fixed point: passed through
    [appendOutput] again it stays as it is; and a text without line feed
    is passed on unchanged. *)
Theorem appendOutput_idempotent s :
  normalize_line_endings (normalize_line_endings s) = normalize_line_endings s
  ∧ (no_line_feed s = true → normalize_line_endings s = s).
Proof.
  split.
  - unfold normalize_line_endings at 1. by rewrite normalize_line_endings_lines.
  - intros Hs. unfold normalize_line_endings. by rewrite split_lines_single.
Qed.

Lemma appendOutput_idempotent_witness :
  normalize_line_endings "1 passed, 0 failed" = "1 passed, 0 failed".
Proof. apply (proj2 (appendOutput_idempotent "1 passed, 0 failed")). reflexivity. Defined.

(** *** Resolving messages *)

Lemma map_completion_normal {A B} (f : A → completion B) xs ys :
  map_completion f xs = Normal ys ↔ Forall2 (λ x y, f x = Normal y) xs ys.
Proof.
  revert ys. induction xs as [|x xs IH]; intros ys; simpl.
  - split; [by intros [= <-]; constructor|by intros ->%Forall2_nil_inv_l].
  - unfold mbind, completion_bind. split.
    + destruct (f x) as [y| |] eqn:Hy; [|done..].
      destruct (map_completion f xs) as [ys'| |] eqn:Hys; [|done..].
      intros [= <-]. constructor; [done|]. by apply IH.
    + intros (y & ys' & Hy & Hys & ->)%Forall2_cons_inv_l.
      rewrite Hy. apply IH in Hys. by rewrite Hys.
Qed.

(** X3: when an event has a truthy [message], its [messages] field is not
    looked at, whatever it holds: the result is that of the record with
    the [message] alone, and has exactly one message when it resolves. *)
Theorem messagesFor_message_wins props :
  truthy (field props "message") = true →
  messagesFor (VObj props) = messagesFor (VObj [("message", field props "message")])
  ∧ (∀ messages, messagesFor (VObj props) = Normal messages → length messages = 1%nat).
Proof.
  intros Hmessage. unfold messagesFor. rewrite !get_object.
  change (field [("message", field props "message")] "message")
    with (field props "message").
  cbn [mbind completion_bind]. rewrite Hmessage. split; [done|].
  intros messages. destruct (messageFor (field props "message")); by intros [= <-].
Qed.

Lemma messagesFor_message_wins_witness :
  messagesFor (VObj [("failed", VStr "A");
                     ("message", VObj [("text", VStr "boom")]);
                     ("messages", VNum (Int 7))])
  = Normal [new_TestMessage (VStr "boom")].
Proof.
  rewrite (proj1 (messagesFor_message_wins
                    [("failed", VStr "A");
                     ("message", VObj [("text", VStr "boom")]);
                     ("messages", VNum (Int 7))] eq_refl)).
  reflexivity.
Defined.

(** X4: when an event has no truthy [message] and its [messages] is an
    array, the messages are resolved entry by entry, in the order of the
    array: the result has one message per entry, the one [messageFor]
    gives for it, and it fails as soon as one entry fails, for instance a
    [null] entry.  With neither field the result is empty. *)
Theorem messagesFor_maps_entries props :
  truthy (field props "message") = false →
  (∀ entries, field props "messages" = VArr entries →
     (∀ messages,
        messagesFor (VObj props) = Normal messages ↔
        Forall2 (λ entry message, messageFor entry = Normal message) entries messages)
     ∧ (Null ∈ entries → ∀ messages, messagesFor (VObj props) ≠ Normal messages))
  ∧ (truthy (field props "messages") = false → messagesFor (VObj props) = Normal []).
Proof.
  intros Hmessage. split.
  - intros entries Hentries.
    assert (Hfor : messagesFor (VObj props) = map_completion messageFor entries).
    { unfold messagesFor. rewrite !get_object. cbn [mbind completion_bind].
      by rewrite Hmessage, Hentries. }
    rewrite Hfor. split; [intros messages; apply map_completion_normal|].
    intros Hnull messages Hnormal. apply map_completion_normal in Hnormal.
    apply list_elem_of_lookup in Hnull as [i Hi].
    by destruct (Forall2_lookup_l _ _ _ _ _ Hnormal Hi) as (message & _ & ?).
  - intros Hmessages. unfold messagesFor. rewrite !get_object.
    cbn [mbind completion_bind]. by rewrite Hmessage, Hmessages.
Qed.

Lemma messagesFor_maps_entries_witness :
  messagesFor (VObj [("failed", VStr "A");
                     ("messages", VArr [VObj [("text", VStr "first")];
                                        VObj [("text", VStr "second")]])])
  = Normal [new_TestMessage (VStr "first"); new_TestMessage (VStr "second")].
Proof.
  apply (proj1 (messagesFor_maps_entries
                  [("failed", VStr "A");
                   ("messages", VArr [VObj [("text", VStr "first")];
                                      VObj [("text", VStr "second")]])]
                  eq_refl) _ eq_refl).
  by repeat constructor.
Defined.

(** X5: a message entry that is not an object, such as a bare string,
    resolves to a plain message without body and without location: its
    text is not used.  So an event [{failed: id, message: "boom"}] is
    reported with one message whose body is [undefined]. *)
Theorem messageFor_primitive_entry :
  (∀ entry,
     (∀ props, entry ≠ VObj props) → entry ≠ Undefined → entry ≠ Null →
     messageFor entry = Normal (new_TestMessage Undefined))
  ∧ (∀ props text,
       field props "message" = VStr text → text ≠ "" →
       messagesFor (VObj props) = Normal [new_TestMessage Undefined]).
Proof.
  split.
  - intros entry Hobject Hundefined Hnull.
    destruct entry as [| |b|n|s|elems|props]; try done; try reflexivity.
    by destruct (Hobject props).
  - intros props text Hmessage Htext. unfold messagesFor. rewrite !get_object, Hmessage.
    cbn [mbind completion_bind truthy].
    destruct (String.eqb text "") eqn:Heq; [by apply String.eqb_eq in Heq|].
    reflexivity.
Qed.

Lemma messageFor_primitive_entry_witness :
  messagesFor (VObj [("failed", VStr "A"); ("message", VStr "boom")])
  = Normal [new_TestMessage Undefined].
Proof.
  apply (proj2 messageFor_primitive_entry
           [("failed", VStr "A"); ("message", VStr "boom")] "boom" eq_refl).
  discriminate.
Defined.

(** *** [inform] *)

Lemma inform_outputs test messages r :
  let body := λ message : TestMessage,
    text ← lift (toString (vscode.message message));
    call (appendOutput text (location message) test) in
  ∃ texts,
    (length texts ≤ length messages)%nat
    ∧ Forall2 (λ text message, toString (vscode.message message) = Normal text)
        texts (take (length texts) messages)
    ∧ (for_each messages body r).1
      = received r (zip_with (λ text message,
                      appendOutput text (location message) test) texts messages)
    ∧ ((for_each messages body r).2 = Normal () ↔ length texts = length messages).
Proof.
  intros body. revert r. induction messages as [|message messages IH]; intros r.
  - exists []. simpl. by rewrite received_nil.
  - assert (Hbody : body message r
      = match toString (vscode.message message) with
        | Normal text =>
            (received r [appendOutput text (location message) test], Normal ())
        | Throw e => (r, Throw e)
        | Suspended => (r, Suspended)
        end).
    { unfold body, mbind, M_bind, lift. by destruct (toString _). }
    change (for_each (message :: messages) body r)
      with (match body message r with
            | (r', Normal _) => for_each messages body r'
            | (r', Throw e) => (r', Throw e)
            | (r', Suspended) => (r', Suspended)
            end).
    rewrite Hbody.
    destruct (toString (vscode.message message)) as [text| |] eqn:Htext.
    + destruct (IH (received r [appendOutput text (location message) test]))
        as (texts & Hlength & Htexts & Hstate & Hnormal).
      exists (text :: texts). simpl. split; [lia|]. split; [by constructor|].
      split; [by rewrite Hstate, received_received|].
      rewrite Hnormal. split; [by intros ->|by intros [= ->]].
    + exists []. simpl. rewrite received_nil. repeat split; try done; lia.
    + exists []. simpl. rewrite received_nil. repeat split; try done; lia.
Qed.

(** X6: an [inform] event never removes its identity: the test is looked
    up, and the outputs are attached to its handle.  Once the messages of
    the event are resolved, the runner receives one [appendOutput] per
    message, in order, with the text of the body, the location of the
    message and that handle, up to the first message whose body has no
    text form; it completes normally exactly when every message got its
    output. *)
Theorem inform_appends_outputs props key messages r :
  ToString (field props "inform") = Normal key →
  messagesFor (VObj props) = Normal messages →
  ∃ texts,
    (length texts ≤ length messages)%nat
    ∧ Forall2 (λ text message, toString (vscode.message message) = Normal text)
        texts (take (length texts) messages)
    ∧ (inform (VObj props) r).1
      = received r (zip_with (λ text message,
                      appendOutput text (location message) (tests r !! key))
                      texts messages)
    ∧ tests (inform (VObj props) r).1 = tests r
    ∧ ((inform (VObj props) r).2 = Normal () ↔ length texts = length messages).
Proof.
  intros Hkey Hmessages.
  destruct (inform_outputs (tests r !! key) messages r)
    as (texts & Hlength & Htexts & Hstate & Hnormal).
  assert (Hinform : inform (VObj props) r
    = for_each messages (λ message,
        text ← lift (toString (vscode.message message));
        call (appendOutput text (location message) (tests r !! key))) r).
  { unfold inform, lookup_test, get_tests. rewrite get_object.
    unfold mbind at 1 2 3 4 5, M_bind at 1 2 3 4 5, lift at 1 2 3, mret, M_ret.
    by rewrite Hkey, Hmessages. }
  exists texts. rewrite Hinform.
  split; [done|]. split; [done|]. split; [done|]. split; [by rewrite Hstate|done].
Qed.

Lemma inform_appends_outputs_witness :
  let props := [("inform", VStr "A");
                ("messages", VArr [VObj [("text", VStr "setting up")];
                                   VObj [("text", VNum (Int 42))]])] in
  let r := new_Runner [] "sus" {["A" := TestItemRef 1]} in
  ∃ texts,
    (inform (VObj props) r).1
    = received r (zip_with (λ text message,
                    appendOutput text (location message) (Some (TestItemRef 1)))
                    texts [new_TestMessage (VStr "setting up");
                           new_TestMessage (VNum (Int 42))])
    ∧ tests (inform (VObj props) r).1 = tests r.
Proof.
  intros props r.
  destruct (inform_appends_outputs props "A"
              [new_TestMessage (VStr "setting up"); new_TestMessage (VNum (Int 42))]
              r eq_refl eq_refl)
    as (texts & _ & _ & Hstate & Htests & _).
  exists texts. split; [exact Hstate|exact Htests].
Defined.

(** X7: a message without text does not go through [inform]: when the
    [message] of the event is an object whose [text] is falsy (missing, or
    empty), its body is [undefined], and [inform] throws a [TypeError] on
    [message.message.toString()] without any output. *)
Theorem inform_without_text_throws props entry key location r :
  ToString (field props "inform") = Normal key →
  field props "message" = VObj entry →
  truthy (field entry "text") = false →
  locationFor (VObj entry) = Normal location →
  inform (VObj props) r
  = (r, Throw (TypeError "Cannot read properties of undefined (reading 'toString')")).
Proof.
  intros Hkey Hmessage Htext Hlocation.
  assert (Hentry : ∃ m, messageFor (VObj entry) = Normal m ∧ vscode.message m = Undefined).
  { unfold messageFor, messageBodyFor. rewrite !get_object.
    cbn [mbind completion_bind]. rewrite Htext, Hlocation.
    eexists. split; [reflexivity|].
    by destruct (truthy (field entry "actual") && truthy (field entry "expected")). }
  destruct Hentry as (m & Hm & Hbody).
  assert (Hmessages : messagesFor (VObj props) = Normal [m]).
  { unfold messagesFor. rewrite !get_object. cbn [mbind completion_bind].
    rewrite Hmessage. cbn [truthy]. by rewrite Hm. }
  unfold inform, lookup_test, get_tests. rewrite get_object.
  unfold mbind at 1 2 3 4 5, M_bind at 1 2 3 4 5, lift at 1 2 3, mret, M_ret.
  rewrite Hkey, Hmessages. cbn [for_each].
  unfold mbind, M_bind, lift. by rewrite Hbody.
Qed.

Lemma inform_without_text_throws_witness :
  let r := new_Runner [] "sus" {["A" := TestItemRef 1]} in
  inform (VObj [("inform", VStr "A"); ("message", VObj [("text", VStr "")])]) r
  = (r, Throw (TypeError "Cannot read properties of undefined (reading 'toString')")).
Proof.
  intros r.
  exact (inform_without_text_throws
           [("inform", VStr "A"); ("message", VObj [("text", VStr "")])]
           [("text", VStr "")] "A" None r eq_refl eq_refl eq_refl eq_refl).
Defined.

(** *** The [finished] event *)

(** X8: a [finished] event appends its [message], with the line endings
    of [appendOutput], and then closes the input of the host.  When the
    [message] is not a string, [appendOutput] throws a [TypeError] before
    that: nothing is appended and the input of the host stays open. *)
Theorem finished_event_closes_input props r :
  first_tag props = Some tag_finished →
  (∀ text, field props "message" = VStr text →
     onData (VObj props) r
     = to_stdin stdin_end
         (received r [appendOutput (normalize_line_endings text) None None]))
  ∧ ((∀ text, field props "message" ≠ VStr text) →
     ∃ reason, onData (VObj props) r = (r, Throw (TypeError reason))).
Proof.
  intros Htag. rewrite onData_dispatch, Htag. cbn [transition]. split.
  - by intros text ->.
  - intros Hmessage. unfold mbind, M_bind.
    destruct (field props "message") as [| |b|n|s|elems|entry]; try by eexists.
    by destruct (Hmessage s).
Qed.

Lemma finished_event_closes_input_witness :
  let r := new_Runner [] "sus" {["A" := TestItemRef 1]} in
  child_stdin (onData (VObj [("finished", VBool true); ("message", VStr "1 passed")]) r).1
  = [stdin_write_run ["A"]; stdin_end]
  ∧ ∃ reason, onData (VObj [("finished", VBool true)]) r = (r, Throw (TypeError reason)).
Proof.
  intros r. split.
  - rewrite (proj1 (finished_event_closes_input
                      [("finished", VBool true); ("message", VStr "1 passed")] r eq_refl)
               "1 passed" eq_refl).
    reflexivity.
  - apply (proj2 (finished_event_closes_input [("finished", VBool true)] r eq_refl)).
    intros text. discriminate.
Defined.

(** *** The Pending Test Set over a session *)







(** *** What the events may report *)

Lemma appends_ret {A} P (a : A) : appends P (mret a).
Proof. intros r. exists []. by rewrite app_nil_r. Qed.

Lemma appends_lift {A} P (c : completion A) : appends P (lift c).
Proof. intros r. exists []. by rewrite app_nil_r. Qed.

Lemma appends_call (P : TestRunCall FileCoverage → Prop) c : P c → appends P (call c).
Proof. intros Hc r. exists [c]. split; [done|by repeat constructor]. Qed.

Lemma appends_same_testRun {A} P (m : M A) :
  preserves testRun m → appends P m.
Proof. intros Hm r. exists []. by rewrite Hm, app_nil_r. Qed.

Lemma appends_bind {A A'} P (m : M A) (f : A → M A') :
  appends P m → (∀ a, appends P (f a)) → appends P (m ≫= f).
Proof.
  intros Hm Hf r. unfold mbind, M_bind. destruct (Hm r) as (calls & Hcalls & HP).
  destruct (m r) as [r' [a|e|]]; simpl in *; [|by exists calls..].
  destruct (Hf a r') as (calls' & Hcalls' & HP').
  exists (calls ++ calls'). rewrite Hcalls', Hcalls, <-app_assoc.
  split; [done|by apply Forall_app].
Qed.

Lemma appends_for_each {A} P (xs : list A) (body : A → M unit) :
  (∀ x, appends P (body x)) → appends P (for_each xs body).
Proof.
  intros Hbody. induction xs as [|x xs IH]; simpl.
  - apply appends_ret.
  - apply appends_bind; [apply Hbody|]. by intros _.
Qed.

Ltac appends_step :=
  match goal with
  | |- appends _ (mret _) => apply appends_ret
  | |- appends _ (lift _) => apply appends_lift
  | |- appends _ (throw _) => apply appends_lift
  | |- appends _ (call _) => by apply appends_call
  | |- appends _ (_ ≫= _) => apply appends_bind; [|intros ?]
  | |- appends _ (for_each _ _) => apply appends_for_each; intros ?
  | |- appends _ (if ?b then _ else _) => destruct b
  | |- appends _ (match ?v with _ => _ end) => destruct v
  | |- appends _ _ => by apply appends_same_testRun; intros ?
  end.

Ltac solve_appends :=
  unfold onData, inform, popTest, Runner_addCoverage, Runner_appendOutput,
    lookup_test, get_tests;
  repeat appends_step.

Lemma onData_appends data :
  appends (λ c, is_event_call c = true) (onData data).
Proof. solve_appends. Qed.

Lemma events_append datas r :
  ∃ calls,
    testRun (events datas r) = testRun r ++ calls
    ∧ Forall (λ c, is_event_call c = true) calls.
Proof.
  revert r. induction datas as [|data datas IH]; intros r.
  - exists []. by rewrite app_nil_r.
  - change (events (data :: datas) r) with (events datas (deliver r data)).
    destruct (IH (deliver r data)) as (calls' & Hcalls' & HP').
    destruct (onData_appends data r) as (calls & Hcalls & HP).
    exists (calls ++ calls'). unfold deliver in *.
    rewrite Hcalls', Hcalls, <-app_assoc. split; [done|by apply Forall_app].
Qed.

(** X11: the [TestRun] log only grows under [onData], and [onData] never
    reports a test skipped and never ends the run: whatever the event, and
    also when its listener throws, the calls it adds are among [started],
    [passed], [failed], [errored], [appendOutput] and [addCoverage].  The
    same holds for any sequence of events. *)
Theorem onData_only_event_calls :
  (∀ data r, ∃ calls,
     testRun (onData data r).1 = testRun r ++ calls
     ∧ Forall (λ c, is_event_call c = true) calls)
  ∧ (∀ datas r, ∃ calls,
       testRun (events datas r) = testRun r ++ calls
       ∧ Forall (λ c, is_event_call c = true) calls).
Proof. split; [apply onData_appends|apply events_append]. Qed.



(** *** The input of the host *)






(** *** Waiting for the exit *)

(** X14: [run()] does nothing to the tests while [finished] is pending: it
    appends its first line and is suspended at its [await], without
    skipping a test or ending the run; and the listeners of the error
    stream and of the [error] event of the child only append their text,
    they settle nothing, so that after them [run()] is still suspended. *)
Theorem run_waits_for_exit text r :
  finished r = Pending →
  run r = (received r [appendOutput (running_line r) None None], Suspended)
  ∧ run_from_await r = (r, Suspended)
  ∧ on_error text r
    = (received r [appendOutput (normalize_line_endings text) None None], Normal ())
  ∧ on_stderr text r
    = (received r [appendOutput (normalize_line_endings text) None None], Normal ())
  ∧ run_from_await (on_error text r).1 = ((on_error text r).1, Suspended).
Proof.
  intros Hpending. split; [by apply run_pending|].
  assert (Hawait : ∀ r', finished r' = Pending → run_from_await r' = (r', Suspended)).
  { intros r' Hr'. unfold run_from_await, try_finally, try_catch, await_finished.
    by rewrite Hr'. }
  split; [by apply Hawait|]. split; [done|]. split; [done|]. by apply Hawait.
Qed.

Lemma run_waits_for_exit_witness :
  let r := new_Runner [] "sus" {["A" := TestItemRef 1]} in
  testRun (run r).1 = [appendOutput ("Running tests in sus..." +:+ CRLF) None None]
  ∧ (run r).2 = Suspended.
Proof.
  intros r. destruct (run_waits_for_exit "" r eq_refl) as [Hrun _].
  rewrite Hrun. split; reflexivity.
Defined.

(** *** The code in the exit line *)

Lemma pretty_N_go_not_n x s :
  (∀ s', s ≠ String "n" s') → ∀ s', pretty_N_go x s ≠ String "n" s'.
Proof.
  revert s. induction (N.lt_wf_0 x) as [x _ IH]; intros s Hs.
  destruct (decide (x = 0)%N) as [->|Hx]; [by rewrite pretty_N_go_0|].
  rewrite pretty_N_go_step by lia. apply IH; [apply N.div_lt; lia|].
  intros s'. unfold pretty_N_char. by repeat case_match.
Qed.

Lemma pretty_Z_not_null (n : Z) : pretty n ≠ "null".
Proof.
  destruct n as [|p|p]; [done| |done].
  unfold pretty, pretty_Z, pretty, pretty_positive, pretty, pretty_N.
  rewrite decide_False by done. by apply pretty_N_go_not_n.
Qed.

Lemma code_text_inj code code' : code_text code = code_text code' → code = code'.
Proof.
  destruct code as [n|], code' as [n'|]; simpl; intros Heq; [| | |done].
  - f_equal. by apply (inj pretty).
  - by destruct (pretty_Z_not_null n).
  - by destruct (pretty_Z_not_null n').
Qed.

Lemma string_length_app (s t : string) :
  String.length (s +:+ t) = (String.length s + String.length t)%nat.
Proof.
  induction s as [|c s IH]; [done|].
  change (String c s +:+ t) with (String c (s +:+ t)). simpl. by rewrite IH.
Qed.

Lemma string_app_cancel_r (s s' t : string) : s +:+ t = s' +:+ t → s = s'.
Proof.
  revert s'. induction s as [|c s IH]; intros [|c' s'] Heq; [done| | |].
  - apply (f_equal String.length) in Heq.
    change ("" +:+ t) with t in Heq. rewrite string_length_app in Heq. simpl in Heq. lia.
  - apply (f_equal String.length) in Heq.
    change ("" +:+ t) with t in Heq. rewrite string_length_app in Heq. simpl in Heq. lia.
  - change (String c (s +:+ t) = String c' (s' +:+ t)) in Heq.
    injection Heq as -> Heq. f_equal. by apply IH.
Qed.

(** X15: the outcome of [finished] tells the exit code: two exit codes
    that settle the promise in the same way are equal, and so are two
    codes with the same exit line; a missing code, printed [null], is
    not confused with any number. *)
Theorem exit_outcome_tells_code code code' :
  (exit_outcome code = exit_outcome code' → code = code')
  ∧ (exit_line code = exit_line code' → code = code').
Proof.
  split.
  - unfold exit_outcome. intros Heq.
    assert (Hreason : ∀ c c' : option Z,
      Rejected (Error ("Test host exited with code " +:+ code_text c))
      = Rejected (Error ("Test host exited with code " +:+ code_text c')) → c = c').
    { intros c c' [= Hc]. by apply code_text_inj. }
    destruct code as [[|p|p]|], code' as [[|p'|p']|]; try done; by apply Hreason.
  - unfold exit_line. intros Heq%(inj (String.app _)).
    by apply code_text_inj, (string_app_cancel_r _ _ CRLF).
Qed.

Lemma exit_outcome_tells_code_witness :
  exit_outcome (Some 1) ≠ exit_outcome None.
Proof.
  intros Heq. by apply (proj1 (exit_outcome_tells_code (Some 1) None)) in Heq.
Defined.

(** *** Coverage without counts, and the order of the lines *)

(** X16: a [coverage] event whose [counts] is missing or [null] adds no
    coverage: reading the length of [counts] throws a [TypeError] and the
    runner stays as it is.  An empty [counts] array gives a record with no
    statement. *)
Theorem addCoverage_without_counts props r :
  (field props "counts" = Undefined ∨ field props "counts" = Null →
   ∃ reason, Runner_addCoverage (VObj props) r = (r, Throw (TypeError reason)))
  ∧ (own "counts" props = Some (VArr []) →
     Runner_addCoverage (VObj props) r
     = call (addCoverage (new_FileCoverage (Uri_file (field props "coverage")) [])) r).
Proof.
  split.
  - intros Hcounts. unfold Runner_addCoverage. rewrite !get_object.
    unfold mbind, M_bind, lift. destruct Hcounts as [-> | ->]; by eexists.
  - intros Hcounts. by rewrite (addCoverage_array props []).
Qed.

Lemma addCoverage_without_counts_witness :
  let r := new_Runner [] "sus" ∅ in
  ∃ reason,
    onData (VObj [("coverage", VStr "lib/a.rb")]) r = (r, Throw (TypeError reason)).
Proof.
  intros r.
  destruct (proj1 (addCoverage_without_counts [("coverage", VStr "lib/a.rb")] r)
              (or_introl eq_refl)) as [reason Hreason].
  exists reason. exact Hreason.
Defined.

Lemma lines_of_reported_slots (k : nat) entries :
  ∃ lines,
    statement_line <$> omap id (imap (λ i count,
        if not_nullish count
        then Some (new_StatementCoverage count
                     (new_Position (Int (Z.of_nat (k + i) - 1)) (VNum (Int 0))))
        else None) entries)
    = Some <$> lines
    ∧ StronglySorted Z.lt lines
    ∧ Forall (λ z, Z.of_nat k - 1 ≤ z < Z.of_nat (k + length entries) - 1) lines.
Proof.
  revert k. induction entries as [|count entries IH]; intros k.
  - exists []. repeat split; constructor.
  - destruct (IH (S k)) as (lines & Hlines & Hsorted & Hbounds).
    rewrite imap_cons. cbn [omap list_omap].
    assert (Hext : imap ((λ i c,
        if not_nullish c
        then Some (new_StatementCoverage c
               (new_Position (Int (Z.of_nat (k + i) - 1)) (VNum (Int 0))))
        else None) ∘ S) entries
      = imap (λ i c,
        if not_nullish c
        then Some (new_StatementCoverage c
               (new_Position (Int (Z.of_nat (S k + i) - 1)) (VNum (Int 0))))
        else None) entries).
    { apply imap_ext. intros i c _. simpl.
      by replace (k + S i)%nat with (S (k + i)) by lia. }
    rewrite Hext.
    assert (Hbounds' : Forall (λ z, Z.of_nat k - 1 < z
                                     ∧ Z.of_nat k - 1 ≤ z
                                         < Z.of_nat (k + length (count :: entries)) - 1) lines).
    { eapply Forall_impl; [exact Hbounds|]. simpl. intros z. lia. }
    set (rest := omap id (imap _ entries)) in *.
    destruct (not_nullish count); cbn [id].
    + exists ((Z.of_nat k - 1) :: lines). rewrite fmap_cons, Hlines, Nat.add_0_r.
      split; [done|]. split.
      * constructor; [done|]. eapply Forall_impl; [exact Hbounds'|]. simpl. lia.
      * constructor; [simpl; lia|]. eapply Forall_impl; [exact Hbounds'|]. simpl. lia.
    + exists lines. split; [done|]. split; [done|].
      eapply Forall_impl; [exact Hbounds'|]. simpl. lia.
Qed.

(** X17: the statements of a coverage record are in the order of their
    lines: for a [counts] array of length [n], the lines of the record are
    strictly increasing numbers from [-1] to [n - 2], so that no line is
    reported twice. *)
Theorem addCoverage_lines_increase props entries r :
  own "counts" props = Some (VArr entries) →
  ∃ details lines,
    Runner_addCoverage (VObj props) r
    = call (addCoverage (new_FileCoverage (Uri_file (field props "coverage")) details)) r
    ∧ statement_line <$> details = Some <$> lines
    ∧ StronglySorted Z.lt lines
    ∧ Forall (λ z, -1 ≤ z < Z.of_nat (length entries) - 1) lines.
Proof.
  intros Hcounts.
  destruct (lines_of_reported_slots 0 entries) as (lines & Hlines & Hsorted & Hbounds).
  exists (sparse_statements entries), lines.
  split; [by apply addCoverage_array|]. split; [exact Hlines|]. split; [done|].
  eapply Forall_impl; [exact Hbounds|]. simpl. lia.
Qed.

Lemma addCoverage_lines_increase_witness :
  ∃ details,
    (Runner_addCoverage
       (VObj [("coverage", VStr "lib/a.rb");
              ("counts", VArr [Null; VNum (Int 3); VNum (Int 0); Null; VNum (Int 5)])])
       (new_Runner [] "sus" ∅)).1.(testRun)
    = [addCoverage (new_FileCoverage (Uri_file (VStr "lib/a.rb")) details)]
    ∧ statement_line <$> details = [Some 0; Some 1; Some 3].
Proof.
  destruct (addCoverage_lines_increase
              [("coverage", VStr "lib/a.rb");
               ("counts", VArr [Null; VNum (Int 3); VNum (Int 0); Null; VNum (Int 5)])]
              [Null; VNum (Int 3); VNum (Int 0); Null; VNum (Int 5)]
              (new_Runner [] "sus" ∅) eq_refl)
    as (details & lines & Hrun & Hlines & _).
  exists details. rewrite Hrun. split; [reflexivity|].
  cbn in Hrun. injection Hrun as <-. reflexivity.
Defined.

(** *** Events whose messages resolve *)





